(** * Readability analyzer (app.py): sentence segmentation, syllable
      estimation, grade scoring, zone annotation and the zone registry.

    Python strings are modelled as lists of Unicode code points, floats as
    rationals, the two third-party libraries the helpers call
    (textstat, syllapy) as oracles bound in a Section. *)

From Stdlib Require Import ZArith NArith QArith Qround Lia Lqa String Ascii.
From stdpp Require Import base list.

Set Default Proof Using "Type".

(** ** Python strings *)

(** A Python [str] is a sequence of code points. *)
Abbreviation pystr := (list N).

(** String literals of the source, as code points. *)
Definition str (s : string) : pystr := map N_of_ascii (list_ascii_of_string s).

Definition in_range (lo hi c : N) : bool := (lo <=? c)%N && (c <=? hi)%N.

(** Whitespace as [str.strip()] and the pattern class [\s] see it (both use
    the same Unicode predicate). *)
Definition is_space (c : N) : bool :=
  in_range 9 13 c || in_range 28 32 c || (c =? 133)%N || (c =? 160)%N
  || (c =? 5760)%N || in_range 8192 8202 c || (c =? 8232)%N || (c =? 8233)%N
  || (c =? 8239)%N || (c =? 8287)%N || (c =? 12288)%N.

Definition is_upper (c : N) : bool := in_range 65 90 c.
Definition is_lower (c : N) : bool := in_range 97 122 c.
Definition is_digit (c : N) : bool := in_range 48 57 c.

(** The class [[a-zA-Z]]. *)
Definition is_alpha (c : N) : bool := is_upper c || is_lower c.

(** The class [[.!?]]. *)
Definition is_terminal (c : N) : bool :=
  (c =? 46)%N || (c =? 33)%N || (c =? 63)%N.

(** An upper-case letter, a double quote (34) or an apostrophe (39): the
    class of the look-ahead in the sentence pattern. *)
Definition is_upper_or_quote (c : N) : bool :=
  is_upper c || (c =? 34)%N || (c =? 39)%N.

(** [str.lower()] on one code point; the source only lowers strings made
    of [[a-zA-Z]]. *)
Definition lower_char (c : N) : N := if is_upper c then (c + 32)%N else c.
Definition lower (s : pystr) : pystr := map lower_char s.

Fixpoint lstrip (s : pystr) : pystr :=
  match s with
  | [] => []
  | c :: s' => if is_space c then lstrip s' else s
  end.

Fixpoint rstrip (s : pystr) : pystr :=
  match s with
  | [] => []
  | c :: s' =>
      match rstrip s' with
      | [] => if is_space c then [] else [c]
      | r => c :: r
      end
  end.

(** [s.strip()] *)
Definition strip (s : pystr) : pystr := rstrip (lstrip s).

(** [sep.join(xs)] *)
Fixpoint join (sep : pystr) (xs : list pystr) : pystr :=
  match xs with
  | [] => []
  | [x] => x
  | x :: rest => x ++ sep ++ join sep rest
  end.

Definition space : pystr := [32%N].

(** Truthiness of a string: non-empty. *)
Definition nonempty (s : pystr) : bool :=
  match s with [] => false | _ => true end.

(** ** The regular expressions of the source

    A pattern is a function that, given the character before the current
    position and the rest of the input, says how many characters a match
    starting here consumes. *)

Definition pattern := option N -> pystr -> option nat.

Definition opt_test (p : N -> bool) (o : option N) : bool :=
  match o with Some c => p c | None => false end.

(** [p+] with backtracking: the longest non-empty run of [p] characters
    after which [ok last rest] holds, [last] being the last character
    consumed and [rest] what follows it. *)
Fixpoint greedy_plus (p : N -> bool) (ok : N -> pystr -> bool) (s : pystr)
  : option nat :=
  match s with
  | [] => None
  | c :: s' =>
      if p c then
        match greedy_plus p ok s' with
        | Some k => Some (S k)
        | None => if ok c s' then Some 1 else None
        end
      else None
  end.

(** The sentence pattern: look-behind for one of [.!?], then [\s+], then
    look-ahead for an upper-case letter or a quotation mark. *)
Definition sentence_break : pattern := fun prev s =>
  if opt_test is_terminal prev
  then greedy_plus is_space (fun _ rest => opt_test is_upper_or_quote (head rest)) s
  else None.

(** [\s+] *)
Definition ws_run : pattern := fun _ s =>
  greedy_plus is_space (fun _ _ => true) s.

Definition cons_head (c : N) (ps : list pystr) : list pystr :=
  match ps with
  | [] => [[c]]
  | p :: ps' => (c :: p) :: ps'
  end.

(** [re.split]: scan left to right, try the pattern at every position; at
    a match close the current piece and jump past the match ([skip] counts
    the characters of the match still to pass). With [keep] the matched
    text is returned between the pieces, as for a pattern wrapped in a
    capturing group. The patterns of the source never match the empty
    string. *)
Fixpoint re_split_scan (pat : pattern) (keep : bool) (prev : option N)
    (skip : nat) (s : pystr) : list pystr :=
  match s with
  | [] => [[]]
  | c :: s' =>
      match skip with
      | S k => re_split_scan pat keep (Some c) k s'
      | O =>
          match pat prev s with
          | Some (S k) =>
              [] :: (if keep then [take (S k) s] else [])
                 ++ re_split_scan pat keep (Some c) k s'
          | _ => cons_head c (re_split_scan pat keep (Some c) 0 s')
          end
      end
  end.

Definition re_split (pat : pattern) (keep : bool) (s : pystr) : list pystr :=
  re_split_scan pat keep None 0 s.

(** [re.findall] for a pattern without groups. *)
Fixpoint re_findall_scan (pat : pattern) (prev : option N) (skip : nat)
    (s : pystr) : list pystr :=
  match s with
  | [] => []
  | c :: s' =>
      match skip with
      | S k => re_findall_scan pat (Some c) k s'
      | O =>
          match pat prev s with
          | Some (S k) => take (S k) s :: re_findall_scan pat (Some c) k s'
          | _ => re_findall_scan pat (Some c) 0 s'
          end
      end
  end.

Definition re_findall (pat : pattern) (s : pystr) : list pystr :=
  re_findall_scan pat None 0 s.

(** ** Helper functions of app.py *)

(** [split_into_sentences]: split the stripped text at the sentence
    pattern, keep the stripped non-blank pieces. *)
Definition split_into_sentences (text : pystr) : list pystr :=
  let parts := re_split sentence_break false (strip text) in
  map strip (filter (fun p => nonempty (strip p) = true) parts).


(** *** Exceptions *)

Inductive exception := IndexError | KeyError | OtherException (name : string).

(** What evaluating a Python expression gives: a value, or an exception
    that propagates. *)
Inductive outcome (A : Type) : Type :=
| Returned (a : A)
| Raised (e : exception).
Arguments Returned {A} a.
Arguments Raised {A} e.

#[export] Instance outcome_ret : MRet outcome := fun A a => Returned a.
#[export] Instance outcome_bind : MBind outcome := fun A B f m =>
  match m with Returned a => f a | Raised e => Raised e end.

(** [try: body  except Exception: handler] *)
Definition try_except {A} (body : outcome A) (handler : exception -> outcome A)
  : outcome A :=
  match body with Returned a => Returned a | Raised e => handler e end.

(** *** What the program takes from outside its own source *)

Class Libraries := {
  (** [textstat.flesch_kincaid_grade]: a finite float, or an exception *)
  flesch_kincaid_grade : pystr -> outcome Q;
  (** [syllapy.count]: a syllable count, 0 when the library has none *)
  syllapy_count : pystr -> nat;
  (** [str.isalnum] beyond ASCII, which the class [\w] follows *)
  unicode_alnum : N -> bool
}.

(** *** Floats, as rationals *)

(** [max(a, b)] of Python: [b] only when it is strictly greater. *)
Definition py_max (a b : Q) : Q := if Qle_bool b a then a else b.

Definition round_half_even (q : Q) : Z :=
  let f := Qfloor q in
  match Qcompare (q - inject_Z f) (1 # 2) with
  | Lt => f
  | Gt => (f + 1)%Z
  | Eq => if Z.even f then f else (f + 1)%Z
  end.

(** [int(x)]: towards zero. *)
Definition py_int (x : Q) : Z := Z.quot (Qnum x) (Zpos (Qden x)).

(** [round(x, 1)] *)
Definition py_round1 (x : Q) : Q := round_half_even (x * 10) # 10.

(** A tagged zone, as the dicts of [st.session_state.zones]. *)
Record zone := { text : pystr; label : pystr }.

(** A row of the summary table. *)
Record summary_row := {
  row_zone_type : pystr;
  row_words : nat;
  row_est_grade : Q;
  row_target_grade : Z;
  row_status : pystr
}.

Section Helpers.
Context `{Libraries}.

(** [count_syllables] *)

Definition is_vowel (ch : N) : bool :=
  bool_decide (ch ∈ str "aeiouy").

(** One turn of the loop over [clean], on the pair [(cnt, prev_vowel)]. *)
Definition vowel_step (st : nat * bool) (ch : N) : nat * bool :=
  let '(cnt, prev_vowel) := st in
  let is_v := is_vowel ch in
  (if is_v && negb prev_vowel then S cnt else cnt, is_v).

Definition vowel_groups (clean : pystr) : nat :=
  fst (foldl vowel_step (0, false) clean).

Definition endswith_e (clean : pystr) : bool :=
  bool_decide (last clean = Some 101%N).

Definition count_syllables (word : pystr) : nat :=
  let clean := lower (List.filter is_alpha word) in
  if negb (nonempty clean) then 0
  else
    let n := syllapy_count clean in
    if negb (n =? 0) then n
    else
      let cnt := vowel_groups clean in
      let cnt := if endswith_e clean && (1 <? cnt) then cnt - 1 else cnt in
      max 1 cnt.

(** [fk_grade] *)
Definition fk_grade (text : pystr) : outcome Q :=
  try_except
    (g ← flesch_kincaid_grade text; mret (py_max (py_round1 g) 0))
    (fun _ => mret 0%Q).

(** [html.escape(s)], quotes included: the five replacements act on
    disjoint characters, the ampersand first. *)
Definition escape_char (c : N) : pystr :=
  if (c =? 38)%N then str "&amp;"
  else if (c =? 60)%N then str "&lt;"
  else if (c =? 62)%N then str "&gt;"
  else if (c =? 34)%N then str "&quot;"
  else if (c =? 39)%N then str "&#x27;"
  else [c].

Definition html_escape (s : pystr) : pystr := concat (map escape_char s).

Definition dq : pystr := [34%N].

Definition ZONE_COLORS : list (pystr * pystr) :=
  [ (str "Dialogue", str "#AED6F1");
    (str "Math Problem", str "#A9DFBF");
    (str "Narration", str "#FAD7A0") ].

(** [d.get(key, default)] *)
Fixpoint dict_get (d : list (pystr * pystr)) (key default : pystr) : pystr :=
  match d with
  | [] => default
  | (k, v) :: d' => if bool_decide (k = key) then v else dict_get d' key default
  end.

Definition heavy_open : pystr :=
  str "<span style=" ++ dq
  ++ str "text-decoration:underline;text-decoration-color:#cc0000;text-underline-offset:3px;"
  ++ dq ++ str ">".

Definition above_open : pystr :=
  str "<span style=" ++ dq
  ++ str "background:rgba(255,140,0,0.38);border-radius:3px;padding:1px 2px;"
  ++ dq ++ str ">".

Definition span_close : pystr := str "</span>".

(** The body of the inner loop of [render_zone_html]: one token. *)
Definition render_token (tok : pystr) : pystr :=
  let alpha_only := List.filter is_alpha tok in
  if nonempty alpha_only && (3 <=? count_syllables alpha_only)
  then heavy_open ++ html_escape tok ++ span_close
  else html_escape tok.

(** The body of the outer loop: one sentence. *)
Definition render_sentence (target : Q) (sentence : pystr) : outcome pystr :=
  g ← fk_grade sentence;
  let above_target := negb (Qle_bool g target) in
  let tokens := re_split ws_run true sentence in
  let sentence_content := concat (map render_token tokens) in
  mret (if above_target
        then above_open ++ sentence_content ++ span_close
        else sentence_content).

Definition zone_body (zone_text : pystr) (target : Q) : outcome pystr :=
  rendered_sentences ← mapM (render_sentence target) (split_into_sentences zone_text);
  mret (join space rendered_sentences).

Definition zone_frame_open (bg label : pystr) : pystr :=
  str "<div style=" ++ dq ++ str "background:" ++ bg
  ++ str ";padding:14px 18px;border-radius:10px;"
  ++ str "margin:10px 0;border-left:5px solid rgba(0,0,0,0.18);"
  ++ str "font-size:15px;line-height:1.9;" ++ dq ++ str ">"
  ++ str "<span style=" ++ dq
  ++ str "font-size:10.5px;font-weight:800;text-transform:uppercase;"
  ++ str "letter-spacing:1.5px;color:#555;" ++ dq ++ str ">" ++ label
  ++ str "</span>"
  ++ str "<hr style=" ++ dq
  ++ str "margin:7px 0 10px;border:none;border-top:1px solid rgba(0,0,0,0.12);"
  ++ dq ++ str ">".

Definition render_zone_html (zone_text zone_type : pystr) (target : Q)
  : outcome pystr :=
  let bg := dict_get ZONE_COLORS zone_type (str "#ffffff") in
  body ← zone_body zone_text target;
  let label := html_escape zone_type in
  mret (zone_frame_open bg label ++ body ++ str "</div>").

(** [zone_summary_row] *)

(** The class [\w]. *)
Definition is_word (c : N) : bool :=
  if (c <? 128)%N then is_alpha c || is_digit c || (c =? 95)%N
  else unicode_alnum c.

(** [\b]: exactly one side is a word character; the ends of the text
    count as non-word. *)
Definition word_boundary (before after : option N) : bool :=
  xorb (opt_test is_word before) (opt_test is_word after).

(** [\b[a-zA-Z]+\b] *)
Definition word_pattern : pattern := fun prev s =>
  if word_boundary prev (head s)
  then greedy_plus is_alpha
         (fun last rest => word_boundary (Some last) (head rest)) s
  else None.

Definition status_on_target : pystr := 9989%N :: str " On Target".
Definition status_above_target : pystr :=
  9888%N :: 65039%N :: str " Above Target".

Definition zone_summary_row (z : zone) (target : Q) : outcome summary_row :=
  let words := re_findall word_pattern (text z) in
  grade ← fk_grade (text z);
  mret {| row_zone_type := label z;
          row_words := length words;
          row_est_grade := grade;
          row_target_grade := py_int target;
          row_status := if Qle_bool grade target
                        then status_on_target else status_above_target |}.

End Helpers.

(** ** The zone registry: [st.session_state] and the button handlers *)

Record session_state := {
  zones : list zone;
  pdf_text : pystr;
  last_fname : pystr;
  zone_key : nat
}.

(** How a handler ends the script run: [st.rerun()], or a message shown by
    [st.warning]. *)
Inductive signal := Rerun | Warning (msg : pystr).

Definition blank_zone_warning : pystr :=
  str "Please paste some text into the Zone Text box before clicking Add Zone.".

(** [if btn_add: ...] *)
Definition add_zone_clicked (zone_text_input zone_type_sel : pystr)
    (st : session_state) : session_state * signal :=
  if nonempty (strip zone_text_input) then
    ({| zones := zones st
                 ++ [ {| text := strip zone_text_input; label := zone_type_sel |} ];
        pdf_text := pdf_text st;
        last_fname := last_fname st;
        zone_key := S (zone_key st) |}, Rerun)
  else (st, Warning blank_zone_warning).

(** [if btn_clear: ...] *)
Definition clear_clicked (st : session_state) : session_state * signal :=
  ({| zones := []; pdf_text := pdf_text st; last_fname := last_fname st;
      zone_key := zone_key st |}, Rerun).

(** [l.pop(idx)] for an index counted from the front: the element, and the
    list without it; [IndexError] out of range. *)
Definition list_pop {A} (idx : nat) (l : list A) : outcome (A * list A) :=
  match l !! idx with
  | Some x => Returned (x, delete idx l)
  | None => Raised IndexError
  end.

(** The delete button of the zone at [idx]. *)
Definition delete_clicked (idx : nat) (st : session_state)
  : outcome (session_state * signal) :=
  r ← list_pop idx (zones st);
  mret ({| zones := snd r; pdf_text := pdf_text st;
           last_fname := last_fname st; zone_key := zone_key st |}, Rerun).

(** ** The vocabulary of the specification *)

(** Maximal runs of characters that satisfy [p], left to right. *)
Fixpoint runs (p : N -> bool) (s : pystr) : list pystr :=
  match s with
  | [] => []
  | c :: s' =>
      if p c then
        if opt_test p (head s') then cons_head c (runs p s')
        else [c] :: runs p s'
      else runs p s'
  end.

(** Word tokens: the maximal runs of alphabetic characters. *)
Definition alpha_runs (s : pystr) : list pystr := runs is_alpha s.

Definition not_space (c : N) : bool := negb (is_space c).

Fixpoint sum_nat (l : list nat) : nat :=
  match l with [] => 0 | x :: l' => x + sum_nat l' end.

Definition Qnat (n : nat) : Q := inject_Z (Z.of_nat n).

(** The grade as section 4.3 words it: the formula over the counts of the
    segmenter, the alphabetic runs and the syllable estimator. *)
Definition formula_grade `{Libraries} (t : pystr) : Q :=
  let sentenceCount := length (split_into_sentences t) in
  let tokens := alpha_runs t in
  let wordCount := length tokens in
  let syllableCount := sum_nat (map count_syllables tokens) in
  if (wordCount =? 0) || (sentenceCount =? 0) then 0%Q
  else py_max (py_round1 ((39 # 100) * (Qnat wordCount / Qnat sentenceCount)
                          + (118 # 10) * (Qnat syllableCount / Qnat wordCount)
                          - (1559 # 100))) 0.

(** Runs of word characters made of letters only. *)
Definition letter_words `{Libraries} (s : pystr) : list pystr :=
  List.filter (forallb is_alpha) (runs is_word s).

(** Removing markup: everything from an opening angle bracket to the next
    closing one. *)
Fixpoint strip_tags (in_tag : bool) (s : pystr) : pystr :=
  match s with
  | [] => []
  | c :: s' =>
      if in_tag then strip_tags (negb (c =? 62)%N) s'
      else if (c =? 60)%N then strip_tags true s'
      else c :: strip_tags false s'
  end.

Fixpoint starts_with (p s : pystr) : bool :=
  match p, s with
  | [], _ => true
  | a :: p', b :: s' => (a =? b)%N && starts_with p' s'
  | _ :: _, [] => false
  end.

Definition entities : list (pystr * N) :=
  [ (str "&amp;", 38%N); (str "&lt;", 60%N); (str "&gt;", 62%N);
    (str "&quot;", 34%N); (str "&#x27;", 39%N) ].

Fixpoint entity_at (es : list (pystr * N)) (s : pystr) : option (N * nat) :=
  match es with
  | [] => None
  | (e, c) :: es' =>
      if starts_with e s then Some (c, length e - 1) else entity_at es' s
  end.

(** Reading character references back, left to right, each one once. *)
Fixpoint unescape_scan (skip : nat) (s : pystr) : pystr :=
  match s with
  | [] => []
  | c :: s' =>
      match skip with
      | S k => unescape_scan k s'
      | O =>
          match entity_at entities s with
          | Some (c', k) => c' :: unescape_scan k s'
          | None => c :: unescape_scan 0 s'
          end
      end
  end.

(** The text an annotated zone shows once its markup is removed. *)
Definition strip_markup (html : pystr) : pystr :=
  unescape_scan 0 (strip_tags false html).

(** A rendered run carries the heavy-word mark, a rendered sentence the
    above-target mark, when it opens with the corresponding span. *)
Definition marked_heavy (out : pystr) : bool := starts_with heavy_open out.
Definition marked_above (out : pystr) : bool := starts_with above_open out.

(** ** Notions used in the proofs *)

Fixpoint take_while (p : N -> bool) (s : pystr) : pystr :=
  match s with
  | [] => []
  | c :: s' => if p c then c :: take_while p s' else []
  end.

Fixpoint drop_while (p : N -> bool) (s : pystr) : pystr :=
  match s with
  | [] => []
  | c :: s' => if p c then drop_while p s' else s
  end.

Definition last_or (prev : option N) (a : pystr) : option N :=
  match last a with Some c => Some c | None => prev end.

(** The pieces [ps] that scanning [s] for sentence breaks yields when the
    character before [s] is [prev]. *)
Inductive Split : option N -> pystr -> list pystr -> Prop :=
| Split_nil prev : Split prev [] [[]]
| Split_cut prev ws C rest ps :
    opt_test is_terminal prev = true ->
    ws <> [] -> forallb is_space ws = true ->
    is_upper_or_quote C = true ->
    Split (last ws) (C :: rest) ps ->
    Split prev (ws ++ C :: rest) ([] :: ps)
| Split_char prev c s' ps :
    sentence_break prev (c :: s') = None ->
    Split (Some c) s' ps ->
    Split prev (c :: s') (cons_head c ps).

(** The look-ahead of the sentence pattern. *)
Definition break_ok (c : N) (rest : pystr) : bool :=
  opt_test is_upper_or_quote (head rest).

Abbreviation scan := (re_split_scan sentence_break false).

(** A piece that starts and ends with a character other than whitespace. *)
Definition edge_ok (p : pystr) : bool :=
  opt_test not_space (head p) && opt_test not_space (last p).

(** The test of the inner loop, on the run itself. *)
Definition is_heavy `{Libraries} (tok : pystr) : bool :=
  nonempty (List.filter is_alpha tok) && (3 <=? count_syllables tok).

(** What the inner loop leaves in [sentence_content]. *)
Definition sentence_content `{Libraries} (sentence : pystr) : pystr :=
  concat (map render_token (re_split ws_run true sentence)).

(** The closing [\b] of the word pattern. *)
Definition word_ok `{Libraries} (last : N) (rest : pystr) : bool :=
  word_boundary (Some last) (head rest).

(** Whether the text read so far ends inside a tag. *)
Fixpoint in_tag_after (in_tag : bool) (a : pystr) : bool :=
  match a with
  | [] => in_tag
  | c :: a' =>
      if in_tag then in_tag_after (negb (c =? 62)%N) a'
      else in_tag_after (c =? 60)%N a'
  end.

(** The constant parts of the frame around a zone. *)
Definition frame_pre : pystr := str "<div style=" ++ dq ++ str "background:".

Definition frame_mid : pystr :=
  str ";padding:14px 18px;border-radius:10px;"
  ++ str "margin:10px 0;border-left:5px solid rgba(0,0,0,0.18);"
  ++ str "font-size:15px;line-height:1.9;" ++ dq ++ str ">"
  ++ str "<span style=" ++ dq
  ++ str "font-size:10.5px;font-weight:800;text-transform:uppercase;"
  ++ str "letter-spacing:1.5px;color:#555;" ++ dq ++ str ">".

Definition frame_post : pystr :=
  str "</span>"
  ++ str "<hr style=" ++ dq
  ++ str "margin:7px 0 10px;border:none;border-top:1px solid rgba(0,0,0,0.12);"
  ++ dq ++ str ">".

(** Without its tags a rendered piece is the escaped text, and it ends
    outside any tag. *)
Definition shows (s out : pystr) : Prop :=
  strip_tags false out = html_escape s /\ in_tag_after false out = false.

(** ** Sample environments and inputs *)

(** No dictionary entry for any word, and a text the grading library
    scores below zero. *)
Definition sample_libs : Libraries :=
  {| flesch_kincaid_grade := fun _ => Returned (-1255 # 1000);
     syllapy_count := fun _ => 0;
     unicode_alnum := fun _ => false |}.

(** The same dictionary, and a library that grades every text 9.4. *)
Definition sample_libs_high : Libraries :=
  {| flesch_kincaid_grade := fun _ => Returned (94 # 10);
     syllapy_count := fun _ => 0;
     unicode_alnum := fun _ => false |}.

Definition sample_state : session_state :=
  {| zones := [ {| text := str "One."; label := str "Dialogue" |};
                {| text := str "Two."; label := str "Narration" |};
                {| text := str "Three."; label := str "Math Problem" |} ];
     pdf_text := []; last_fname := []; zone_key := 3 |}.

Definition algebra_zone : zone :=
  {| text := str "Solve 3x + 2y"; label := str "Math Problem" |}.

Definition two_lower_case_sentences : pystr :=
  str "the dog ran far from the cat. the cat sat on a mat.".

(** ** The rest of the page script *)

(** The marker between pages: two newlines, five box-drawing dashes, the
    words, five dashes, two newlines. *)
Definition page_break : pystr :=
  [10; 10]%N ++ replicate 5 9472%N ++ str " Page Break "
  ++ replicate 5 9472%N ++ [10; 10]%N.

(** [extract_pdf_text], on what [page.extract_text()] gives for each page
    of the opened file ([None] when a page has no text). *)
Definition extract_pdf_text (pdf_pages : list (option pystr)) : pystr :=
  join page_break
    (List.filter nonempty (map (fun page => strip (default [] page)) pdf_pages)).

(** The options of the zone-type radio. *)
Inductive zone_kind := Dialogue | MathProblem | Narration.

Definition kind_label (k : zone_kind) : pystr :=
  match k with
  | Dialogue => str "Dialogue"
  | MathProblem => str "Math Problem"
  | Narration => str "Narration"
  end.

(** The three sliders of the sidebar. *)
Record sliders := {
  dialogue_target : Z;
  math_target : Z;
  narration_target : Z
}.

Definition TARGETS (s : sliders) : list (pystr * Z) :=
  [ (str "Dialogue", dialogue_target s);
    (str "Math Problem", math_target s);
    (str "Narration", narration_target s) ].

(** [d[key]] *)
Fixpoint dict_index {V} (d : list (pystr * V)) (key : pystr) : outcome V :=
  match d with
  | [] => Raised KeyError
  | (k, v) :: d' => if bool_decide (k = key) then Returned v else dict_index d' key
  end.

(** Step 4: the block rendered for each zone, in order. *)
Definition analyzed_zones `{Libraries} (s : sliders) (zs : list zone)
  : outcome (list pystr) :=
  mapM (fun z =>
          target ← dict_index (TARGETS s) (label z);
          render_zone_html (text z) (label z) (inject_Z target)) zs.

(** Step 5: the rows of the summary table. *)
Definition summary_rows `{Libraries} (s : sliders) (zs : list zone)
  : outcome (list summary_row) :=
  mapM (fun z =>
          target ← dict_index (TARGETS s) (label z);
          zone_summary_row z (inject_Z target)) zs.

(** [needle in hay] *)
Fixpoint contains (needle hay : pystr) : bool :=
  match hay with
  | [] => starts_with needle []
  | _ :: hay' => starts_with needle hay || contains needle hay'
  end.

Definition style_green : pystr := str "color:green;font-weight:600".
Definition style_orange : pystr := str "color:darkorange;font-weight:600".

(** [_style_status] *)
Definition style_status (val : pystr) : pystr :=
  if contains (str "On Target") val then style_green else style_orange.

(** The columns of a row, in the order [zone_summary_row] builds them. *)
Definition row_columns : list pystr :=
  [ str "Zone Type"; str "Words"; str "Est. Grade Level";
    str "Target Grade"; str "Status" ].

Fixpoint list_index (x : pystr) (l : list pystr) : option nat :=
  match l with
  | [] => None
  | y :: l' => if bool_decide (y = x) then Some 0 else S <$> list_index x l'
  end.

(** [_style_grade] *)
Definition style_grade (row : summary_row) : list pystr :=
  let styles := replicate (length row_columns) [] in
  let cols := row_columns in
  let above := negb (Qle_bool (row_est_grade row) (inject_Z (row_target_grade row))) in
  match list_index (str "Est. Grade Level") cols with
  | Some i => if above then <[i := style_orange]> styles else styles
  | None => styles
  end.

(** The session state the script starts from ([_DEFAULTS]). *)
Definition initial_state : session_state :=
  {| zones := []; pdf_text := []; last_fname := []; zone_key := 0 |}.

(** Step 1: a file sits in the uploader. The second component is the
    widget value stored under the key of the text editor, if any. *)
Definition file_uploaded (name : pystr) (pdf_pages : list (option pystr))
    (st : session_state * option pystr) : session_state * option pystr :=
  if bool_decide (name <> last_fname (fst st)) then
    ({| zones := zones (fst st);
        pdf_text := extract_pdf_text pdf_pages;
        last_fname := name;
        zone_key := zone_key (fst st) |}, None)
  else st.

(** What a run of the script can react to. *)
Inductive event :=
| AddZone (zone_text_input : pystr) (zone_type_sel : zone_kind)
| ClearZones
| DeleteZone (idx : nat)
| Upload (name : pystr) (pdf_pages : list (option pystr)).

Definition run_event (e : event) (st : session_state) : outcome session_state :=
  match e with
  | AddZone t k => Returned (fst (add_zone_clicked t (kind_label k) st))
  | ClearZones => Returned (fst (clear_clicked st))
  | DeleteZone idx => r ← delete_clicked idx st; mret (fst r)
  | Upload name pdf_pages => Returned (fst (file_uploaded name pdf_pages (st, None)))
  end.

(** The session states the script can be in. *)
Inductive reachable : session_state -> Prop :=
| reach_initial : reachable initial_state
| reach_event st e st' :
    reachable st -> run_event e st = Returned st' -> reachable st'.

(** A stored zone: trimmed, not blank, tagged with one of the radio
    options. *)
Definition zone_ok (z : zone) : Prop :=
  text z <> [] /\ strip (text z) = text z /\ exists k, label z = kind_label k.

(** Consecutive pieces meet at a sentence break. *)
Fixpoint breaks_ok (prev : option N) (ps : list pystr) : Prop :=
  match ps with
  | p :: ((q :: _) as rest) =>
      opt_test is_terminal (last_or prev p) = true
      /\ opt_test is_upper_or_quote (head q) = true
      /\ breaks_ok None rest
  | _ => True
  end.

(** Pieces and kept separators in turn: a piece without whitespace, then
    a non-empty run of whitespace, then a piece, and so on. *)
Fixpoint alternating (toks : list pystr) : Prop :=
  match toks with
  | [] => False
  | [p] => forallb not_space p = true
  | p :: sep :: rest =>
      forallb not_space p = true
      /\ sep <> [] /\ forallb is_space sep = true
      /\ alternating rest
  end.

Definition sample_sliders : sliders :=
  {| dialogue_target := 5; math_target := 3; narration_target := 4 |}.

(** * Properties *)

(** ** Segmentation of the abbreviation scenario *)

(** C2: on the scenario text the segmenter cuts after the abbreviation as
    well, since a capital letter follows its full stop: it returns three
    sentences, not the two of the scenario. *)
Theorem split_into_sentences_dr_smith :
  split_into_sentences (str "Dr. Smith calculated the answer. The cat sat.")
  = [str "Dr."; str "Smith calculated the answer."; str "The cat sat."].
Proof. vm_compute. reflexivity. Qed.

(** ** Rounding and clamping *)

Lemma py_max_nonneg (a : Q) : (0 <= py_max a 0)%Q.
Proof.
  unfold py_max. destruct (Qle_bool 0 a) eqn:E.
  - by apply Qle_bool_iff.
  - apply Qle_refl.
Qed.

Lemma round_half_even_near (q : Q) :
  (inject_Z (round_half_even q) - (1 # 2) <= q)%Q
  /\ (q <= inject_Z (round_half_even q) + (1 # 2))%Q.
Proof.
  unfold round_half_even.
  pose proof (Qfloor_le q) as Hlo. pose proof (Qlt_floor q) as Hhi.
  rewrite inject_Z_plus in Hhi. change (inject_Z 1) with 1%Q in Hhi.
  set (f := Qfloor q) in *.
  destruct (Qcompare_spec (q - inject_Z f) (1 # 2)) as [E|E|E].
  - destruct (Z.even f); rewrite ?inject_Z_plus; change (inject_Z 1) with 1%Q;
      split; lra.
  - split; lra.
  - rewrite inject_Z_plus. change (inject_Z 1) with 1%Q. split; lra.
Qed.

Lemma py_round1_near (x : Q) :
  (py_round1 x - (1 # 20) <= x)%Q /\ (x <= py_round1 x + (1 # 20))%Q.
Proof.
  unfold py_round1.
  destruct (round_half_even_near (x * 10)) as [Hlo Hhi].
  set (k := round_half_even (x * 10)) in *.
  assert (E : (k # 10 == inject_Z k / 10)%Q).
  { rewrite (Qmake_Qdiv k 10). reflexivity. }
  rewrite E. split.
  - apply Qmult_le_r with (z := 10%Q); [reflexivity|]. field_simplify. lra.
  - apply Qmult_le_r with (z := 10%Q); [reflexivity|]. field_simplify. lra.
Qed.

Section Grade.
Context `{Libraries}.

(** The scorer always returns: an exception of the library is caught. *)
Lemma fk_grade_returns (t : pystr) : exists g : Q, fk_grade t = Returned g.
Proof.
  unfold fk_grade, try_except.
  destruct (flesch_kincaid_grade t) as [g|e]; simpl; eauto.
Qed.

(** C3: the grade scorer returns a value for every text, whatever the
    library does with it, and the value is never below zero. *)
Theorem fk_grade_returns_nonneg (t : pystr) :
  exists g : Q, fk_grade t = Returned g /\ (0 <= g)%Q.
Proof.
  unfold fk_grade, try_except.
  destruct (flesch_kincaid_grade t) as [g|e]; simpl.
  - exists (py_max (py_round1 g) 0). split; [reflexivity | apply py_max_nonneg].
  - exists 0%Q. split; [reflexivity | apply Qle_refl].
Qed.

(** C1 (amended): the grade is the score the library gives the text,
    rounded to the nearest tenth and clamped at zero; it is zero when
    the library raises. The counts of the segmenter and of the syllable
    estimator do not enter. *)
Theorem fk_grade_follows_library (t : pystr) :
  match flesch_kincaid_grade t with
  | Returned g =>
      exists k : Z,
        fk_grade t = Returned (py_max (k # 10) 0)
        /\ ((k # 10) - (1 # 20) <= g)%Q /\ (g <= (k # 10) + (1 # 20))%Q
  | Raised _ => fk_grade t = Returned 0%Q
  end.
Proof.
  unfold fk_grade, try_except.
  destruct (flesch_kincaid_grade t) as [g|e]; simpl; [|reflexivity].
  exists (round_half_even (g * 10)). split; [reflexivity|].
  apply py_round1_near.
Qed.

End Grade.

(** C1: with a text of two lower-case sentences, which the library scores
    below zero, the scorer gives 0.0 while the formula over the
    segmenter's single sentence, thirteen words and thirteen syllables
    gives 1.3. *)
Lemma fk_grade_is_not_the_formula :
  exists g : Q,
    @fk_grade sample_libs two_lower_case_sentences = Returned g
    /\ g = 0%Q
    /\ (@formula_grade sample_libs two_lower_case_sentences == 13 # 10)%Q
    /\ ~ (g == @formula_grade sample_libs two_lower_case_sentences)%Q.
Proof.
  assert (E : @formula_grade sample_libs two_lower_case_sentences = (13 # 10)%Q)
    by (vm_compute; reflexivity).
  exists 0%Q. rewrite E.
  split; [vm_compute; reflexivity|]. split; [reflexivity|].
  split; [reflexivity|]. intros HE. discriminate HE.
Qed.

(** ** Syllable estimate *)

(** Without a dictionary entry the vowel groups decide. *)
Example syllables_elephant : @count_syllables sample_libs (str "elephant") = 3.
Proof. vm_compute. reflexivity. Qed.

Example syllables_cat : @count_syllables sample_libs (str "cat") = 1.
Proof. vm_compute. reflexivity. Qed.

Section Syllables.
Context `{Libraries}.

Lemma nonempty_lower (s : pystr) : nonempty (lower s) = nonempty s.
Proof. by destruct s. Qed.

Lemma nonempty_filter_alpha (w : pystr) :
  nonempty (List.filter is_alpha w) = existsb is_alpha w.
Proof.
  induction w as [|c w IH]; simpl; [done|].
  destruct (is_alpha c); simpl; [done | exact IH].
Qed.

(** C4: the estimate is at least 1 for a token with an alphabetic
    character, and it is 0 exactly for the tokens with none. *)
Theorem count_syllables_alpha (w : pystr) :
  (existsb is_alpha w = true -> 1 <= count_syllables w)
  /\ (count_syllables w = 0 <-> existsb is_alpha w = false).
Proof.
  unfold count_syllables.
  rewrite nonempty_lower, nonempty_filter_alpha.
  destruct (existsb is_alpha w); simpl.
  - set (clean := lower (List.filter is_alpha w)).
    destruct (Nat.eqb_spec (syllapy_count clean) 0) as [E|E]; simpl.
    + split; [lia|]. split; [lia | discriminate].
    + split; [lia|]. split; [lia | discriminate].
  - split; [discriminate | done].
Qed.

End Syllables.

Lemma count_syllables_alpha_witness :
  1 <= @count_syllables sample_libs (str "elephant").
Proof.
  apply (proj1 (@count_syllables_alpha sample_libs (str "elephant"))).
  vm_compute. reflexivity.
Defined.

(** ** The zone registry *)

(** C9: blank text is turned away before a zone is made: the handler
    leaves the session state as it was and ends with a warning message. *)
Theorem blank_zone_rejected (zone_text_input zone_type_sel : pystr)
    (st : session_state) :
  strip zone_text_input = [] ->
  add_zone_clicked zone_text_input zone_type_sel st
  = (st, Warning blank_zone_warning).
Proof. intros E. unfold add_zone_clicked. rewrite E. reflexivity. Qed.

Lemma blank_zone_rejected_witness :
  add_zone_clicked [32; 10; 9]%N (str "Dialogue") sample_state
  = (sample_state, Warning blank_zone_warning).
Proof.
  apply (blank_zone_rejected [32; 10; 9]%N (str "Dialogue") sample_state).
  reflexivity.
Defined.

(** C10: deleting the zone at a valid position [i] leaves one zone fewer;
    the zones before [i] stay where they were and the zones after it move
    up by one, in the same order. *)
Theorem delete_keeps_order (i : nat) (st : session_state) :
  i < length (zones st) ->
  exists st',
    delete_clicked i st = Returned (st', Rerun)
    /\ length (zones st') = length (zones st) - 1
    /\ zones st' = take i (zones st) ++ drop (S i) (zones st)
    /\ (forall j, j < i -> zones st' !! j = zones st !! j)
    /\ (forall j, i <= j -> zones st' !! j = zones st !! S j).
Proof.
  intros Hi. unfold delete_clicked, list_pop.
  destruct (lookup_lt_is_Some_2 (zones st) i Hi) as [z Hz].
  rewrite Hz. simpl. eexists. split; [reflexivity|]. simpl.
  split; [apply length_delete; eauto|].
  split; [apply delete_take_drop|].
  split; intros j Hj.
  - by apply list_lookup_delete_lt.
  - by apply list_lookup_delete_ge.
Qed.

Lemma delete_keeps_order_witness :
  exists st',
    delete_clicked 1 sample_state = Returned (st', Rerun)
    /\ length (zones st') = length (zones sample_state) - 1
    /\ zones st' = take 1 (zones sample_state) ++ drop 2 (zones sample_state)
    /\ (forall j, j < 1 -> zones st' !! j = zones sample_state !! j)
    /\ (forall j, 1 <= j -> zones st' !! j = zones sample_state !! S j).
Proof. apply (delete_keeps_order 1 sample_state). simpl. lia. Defined.

Lemma Returned_inj {A} (a b : A) : Returned a = Returned b -> a = b.
Proof. congruence. Qed.

(** ** Character classes *)

Ltac char_props :=
  unfold is_space, is_upper_or_quote, is_terminal, is_alpha, is_upper,
    is_lower, is_digit, in_range in *;
  rewrite ?orb_true_iff, ?andb_true_iff, ?orb_false_iff, ?andb_false_iff,
    ?N.leb_le, ?N.leb_gt, ?N.eqb_eq, ?N.eqb_neq in *.

Lemma upper_or_quote_not_space (c : N) :
  is_upper_or_quote c = true -> is_space c = false.
Proof.
  intros Hc. destruct (is_space c) eqn:E; [|done].
  exfalso. char_props. lia.
Qed.

Lemma terminal_not_space (c : N) : is_terminal c = true -> is_space c = false.
Proof.
  intros Hc. destruct (is_space c) eqn:E; [|done].
  exfalso. char_props. lia.
Qed.

Lemma space_not_terminal (c : N) : is_space c = true -> is_terminal c = false.
Proof.
  intros Hc. destruct (is_terminal c) eqn:E; [|done].
  apply terminal_not_space in E. congruence.
Qed.

Lemma space_not_alpha (c : N) : is_space c = true -> is_alpha c = false.
Proof.
  intros Hc. destruct (is_alpha c) eqn:E; [|done].
  exfalso. char_props. lia.
Qed.

(** ** Marks in the rendered text *)

Lemma starts_with_app (p x : pystr) : starts_with p (p ++ x) = true.
Proof. induction p as [|a p IH]; simpl; [done|]. by rewrite N.eqb_refl. Qed.

Lemma starts_with_head (p s : pystr) (a : N) :
  starts_with (a :: p) s = true -> head s = Some a.
Proof.
  destruct s as [|b s]; simpl; [done|].
  intros Hs. apply andb_true_iff in Hs as [Hab _].
  apply N.eqb_eq in Hab. by subst.
Qed.

Lemma escape_char_head (c : N) : head (escape_char c) <> Some 60%N.
Proof.
  unfold escape_char.
  repeat (case_match; [simpl; discriminate|]).
  simpl. intros [= ->]. discriminate.
Qed.

Lemma html_escape_head (s x : pystr) :
  s <> [] -> head (html_escape s ++ x) <> Some 60%N.
Proof.
  destruct s as [|c s]; [done|]. intros _.
  unfold html_escape. simpl. rewrite <- app_assoc.
  pose proof (escape_char_head c) as Hc.
  destruct (escape_char c) as [|e es] eqn:E; [|exact Hc].
  exfalso. revert E. unfold escape_char.
  repeat (case_match; [discriminate|]). discriminate.
Qed.

Section Marks.
Context `{Libraries}.

Lemma filter_alpha_idem (w : pystr) :
  List.filter is_alpha (List.filter is_alpha w) = List.filter is_alpha w.
Proof.
  induction w as [|c w IH]; simpl; [done|].
  destruct (is_alpha c) eqn:E; simpl; rewrite ?E, IH; done.
Qed.

(** The estimate of a run is the estimate of its letters. *)
Lemma count_syllables_filter (w : pystr) :
  count_syllables (List.filter is_alpha w) = count_syllables w.
Proof. unfold count_syllables. by rewrite filter_alpha_idem. Qed.

Lemma render_token_heavy (tok : pystr) :
  render_token tok
  = if is_heavy tok then heavy_open ++ html_escape tok ++ span_close
    else html_escape tok.
Proof. unfold render_token, is_heavy. by rewrite count_syllables_filter. Qed.

Lemma marked_heavy_render_token (tok : pystr) :
  marked_heavy (render_token tok) = is_heavy tok.
Proof.
  rewrite render_token_heavy. unfold marked_heavy.
  destruct (is_heavy tok) eqn:E; [apply starts_with_app|].
  destruct (starts_with heavy_open (html_escape tok)) eqn:Hs; [|done].
  exfalso. apply starts_with_head in Hs.
  destruct tok as [|c tok]; [discriminate Hs|].
  eapply (html_escape_head (c :: tok) []); [done|].
  by rewrite app_nil_r.
Qed.

Lemma content_not_marked_above (toks : list pystr) :
  marked_above (concat (map render_token toks)) = false.
Proof.
  induction toks as [|tok toks IH]; [done|].
  simpl. rewrite render_token_heavy.
  destruct (is_heavy tok); [rewrite <- app_assoc; reflexivity|].
  destruct tok as [|c tok]; [exact IH|].
  unfold marked_above.
  destruct (starts_with above_open _) eqn:Hs; [|done].
  exfalso. apply starts_with_head in Hs.
  by eapply (html_escape_head (c :: tok)).
Qed.

Lemma render_sentence_returns (target : Q) (sentence : pystr) :
  exists g : Q,
    fk_grade sentence = Returned g
    /\ render_sentence target sentence
       = Returned (if negb (Qle_bool g target)
                   then above_open ++ sentence_content sentence ++ span_close
                   else sentence_content sentence).
Proof.
  destruct (fk_grade_returns sentence) as (g & Hg).
  exists g. split; [done|]. unfold render_sentence. by rewrite Hg.
Qed.

End Marks.

(** C6: a rendered sentence carries the above-target mark exactly when its
    grade is strictly greater than the target; a rendered run carries the
    heavy mark exactly when it has a letter and its syllable estimate is
    at least 3; the heavy marks are the same under any grading library
    and target, and the above-target mark the same under any syllable
    dictionary. *)
Theorem highlight_layers (L : Libraries) (target : Q) (sentence tok : pystr) :
  (exists g out,
      @fk_grade L sentence = Returned g
      /\ @render_sentence L target sentence = Returned out
      /\ (marked_above out = true <-> (target < g)%Q))
  /\ (marked_heavy (@render_token L tok) = true
      <-> List.filter is_alpha tok <> [] /\ 3 <= @count_syllables L tok)
  /\ (forall L' : Libraries,
        (forall w, @syllapy_count L' w = @syllapy_count L w) ->
        @render_token L' tok = @render_token L tok)
  /\ (forall L' : Libraries,
        (forall t, @flesch_kincaid_grade L' t = @flesch_kincaid_grade L t) ->
        forall out out',
          @render_sentence L target sentence = Returned out ->
          @render_sentence L' target sentence = Returned out' ->
          marked_above out' = marked_above out).
Proof.
  assert (Hmark : forall (K : Libraries) g,
    marked_above (if negb (Qle_bool g target)
                  then above_open ++ @sentence_content K sentence ++ span_close
                  else @sentence_content K sentence)
    = negb (Qle_bool g target)).
  { intros K g. destruct (negb (Qle_bool g target)).
    - apply starts_with_app.
    - apply content_not_marked_above. }
  split; [|split; [|split]].
  - destruct (@render_sentence_returns L target sentence) as (g & Hg & Hr).
    exists g. eexists. split; [done|]. split; [exact Hr|].
    rewrite (Hmark L g), negb_true_iff.
    destruct (Qle_bool g target) eqn:E.
    + apply Qle_bool_iff in E. split; [done|]. intros Hlt.
      exfalso. by apply (Qlt_not_le _ _ Hlt).
    + split; [|done]. intros _. apply Qnot_le_lt. intros Hle.
      apply Qle_bool_iff in Hle. congruence.
  - rewrite marked_heavy_render_token. unfold is_heavy.
    rewrite andb_true_iff, Nat.leb_le.
    destruct (List.filter is_alpha tok); simpl; split; intros [? ?]; done.
  - intros L' Hs. unfold render_token, count_syllables. by rewrite Hs.
  - intros L' Hg out out' Ho Ho'.
    destruct (@render_sentence_returns L target sentence) as (g & Hfk & Hr).
    destruct (@render_sentence_returns L' target sentence) as (g' & Hfk' & Hr').
    assert (g' = g) as ->.
    { unfold fk_grade in Hfk, Hfk'. rewrite Hg in Hfk'. congruence. }
    rewrite Hr in Ho. rewrite Hr' in Ho'.
    apply Returned_inj in Ho, Ho'. subst out out'.
    by rewrite (Hmark L g), (Hmark L' g).
Qed.

Lemma highlight_layers_witness :
  @render_token sample_libs_high (str "elephant")
  = @render_token sample_libs (str "elephant").
Proof.
  apply (proj1 (proj2 (proj2
    (highlight_layers sample_libs 4 (str "An elephant.") (str "elephant"))))).
  reflexivity.
Defined.

(** ** The sentence pattern, in closed form *)

Lemma take_drop_while (p : N -> bool) (s : pystr) :
  take_while p s ++ drop_while p s = s.
Proof.
  induction s as [|c s IH]; simpl; [done|].
  destruct (p c); simpl; [by rewrite IH | done].
Qed.

Lemma take_while_forallb (p : N -> bool) (s : pystr) :
  forallb p (take_while p s) = true.
Proof.
  induction s as [|c s IH]; simpl; [done|].
  destruct (p c) eqn:E; simpl; [by rewrite E | done].
Qed.

Lemma drop_while_head (p : N -> bool) (s : pystr) :
  opt_test p (head (drop_while p s)) = false.
Proof.
  induction s as [|c s IH]; simpl; [done|].
  destruct (p c) eqn:E; simpl; [exact IH | exact E].
Qed.

Lemma take_drop_while_app (p : N -> bool) (ws rest : pystr) :
  forallb p ws = true -> opt_test p (head rest) = false ->
  take_while p (ws ++ rest) = ws /\ drop_while p (ws ++ rest) = rest.
Proof.
  intros Hws Hrest. induction ws as [|w ws IH]; simpl in *.
  - destruct rest as [|r rest]; simpl in *; [done|]. by rewrite Hrest.
  - apply andb_true_iff in Hws as [Hw Hws]. rewrite Hw.
    destruct (IH Hws) as [-> ->]. done.
Qed.

Lemma greedy_plus_space (s : pystr) :
  greedy_plus is_space break_ok s
  = if nonempty (take_while is_space s)
       && opt_test is_upper_or_quote (head (drop_while is_space s))
    then Some (length (take_while is_space s)) else None.
Proof.
  induction s as [|c s IH]; simpl; [done|].
  destruct (is_space c) eqn:Ec; simpl; [|done].
  rewrite IH. unfold break_ok.
  destruct (take_while is_space s) as [|w ws] eqn:Etw; simpl.
  - assert (drop_while is_space s = s) as ->.
    { rewrite <- (take_drop_while is_space s) at 2. by rewrite Etw. }
    by destruct (opt_test is_upper_or_quote (head s)).
  - destruct (opt_test is_upper_or_quote (head (drop_while is_space s)));
      [done|].
    assert (Hs : head s = Some w).
    { rewrite <- (take_drop_while is_space s), Etw. done. }
    rewrite Hs. simpl.
    assert (Hw : is_space w = true).
    { pose proof (take_while_forallb is_space s) as Hf.
      rewrite Etw in Hf. simpl in Hf. by apply andb_true_iff in Hf as [? _]. }
    destruct (is_upper_or_quote w) eqn:Eu; [|done].
    apply upper_or_quote_not_space in Eu. congruence.
Qed.

Lemma sentence_break_eq (prev : option N) (s : pystr) :
  sentence_break prev s
  = if opt_test is_terminal prev
       && nonempty (take_while is_space s)
       && opt_test is_upper_or_quote (head (drop_while is_space s))
    then Some (length (take_while is_space s)) else None.
Proof.
  unfold sentence_break.
  change (fun (_ : N) rest => opt_test is_upper_or_quote (head rest))
    with break_ok.
  rewrite greedy_plus_space.
  destruct (opt_test is_terminal prev); simpl; done.
Qed.

Lemma sentence_break_prev (p1 p2 : option N) (s : pystr) :
  opt_test is_terminal p1 = opt_test is_terminal p2 ->
  sentence_break p1 s = sentence_break p2 s.
Proof. intros E. by rewrite !sentence_break_eq, E. Qed.

Lemma scan_prev (p1 p2 : option N) (s : pystr) :
  opt_test is_terminal p1 = opt_test is_terminal p2 ->
  scan p1 0 s = scan p2 0 s.
Proof.
  intros E. destruct s as [|c s]; simpl; [done|].
  by rewrite (sentence_break_prev p1 p2).
Qed.

Lemma last_cons_last_or (c : N) (a : pystr) :
  last (c :: a) = last_or (Some c) a.
Proof. unfold last_or. apply last_cons. Qed.

Lemma re_split_scan_skip (pat : pattern) (keep : bool) (a rest : pystr)
    (prev : option N) :
  re_split_scan pat keep prev (length a) (a ++ rest)
  = re_split_scan pat keep (last_or prev a) 0 rest.
Proof.
  revert prev. induction a as [|c a IH]; intros prev; [done|].
  simpl. rewrite IH. f_equal.
  unfold last_or. rewrite last_cons. by destruct (last a).
Qed.

Lemma scan_Split (s : pystr) (prev : option N) :
  Split prev s (scan prev 0 s).
Proof.
  remember (length s) as n eqn:Hn.
  revert s prev Hn. induction (lt_wf n) as [n _ IH]. intros s prev ->.
  destruct s as [|c s']; [constructor|].
  simpl. destruct (sentence_break prev (c :: s')) as [[|k]|] eqn:E.
  - exfalso. rewrite sentence_break_eq in E. simpl in E.
    destruct (is_space c); simpl in E; rewrite ?andb_false_r in E;
      [|done].
    by destruct (opt_test is_terminal prev && true
                 && opt_test is_upper_or_quote (head (drop_while is_space s'))).
  - rewrite sentence_break_eq in E.
    destruct (opt_test is_terminal prev) eqn:Ep; [|done].
    destruct (nonempty (take_while is_space (c :: s'))) eqn:Ene; [|done].
    destruct (head (drop_while is_space (c :: s'))) as [C|] eqn:Ehd; [|done].
    simpl in E. destruct (is_upper_or_quote C) eqn:EC; [|done].
    injection E as E.
    simpl in *. destruct (is_space c) eqn:Ec; [|done].
    simpl in E. injection E as E.
    destruct (drop_while is_space s') as [|C' rest] eqn:Edw; [done|].
    simpl in Ehd. injection Ehd as ->.
    pose proof (take_drop_while is_space s') as Hs'. rewrite Edw in Hs'.
    set (tw := take_while is_space s') in *.
    rewrite <- Hs' at 2. rewrite <- E, re_split_scan_skip.
    rewrite <- last_cons_last_or.
    replace (c :: s') with ((c :: tw) ++ C :: rest)
      by (simpl; by rewrite Hs').
    apply Split_cut; try done.
    + simpl. rewrite Ec. apply take_while_forallb.
    + eapply IH; [|reflexivity]. rewrite <- Hs'.
      simpl. rewrite length_app. simpl. lia.
  - apply Split_char; [done|]. eapply IH; [|reflexivity]. simpl. lia.
Qed.

(** ** Re-segmentation *)

Lemma join_cons_head (c : N) (ps : list pystr) :
  join space (cons_head c ps) = c :: join space ps.
Proof. destruct ps as [|p [|q ps]]; done. Qed.

Lemma join_nil_cons (ps : list pystr) :
  ps <> [] -> join space ([] :: ps) = space ++ join space ps.
Proof. by destruct ps. Qed.

Lemma Split_nonnil prev s ps : Split prev s ps -> ps <> [].
Proof. destruct 1 as [| |? ? ? ps']; try done. by destruct ps'. Qed.

Lemma spaces_last (ws : pystr) :
  ws <> [] -> forallb is_space ws = true ->
  exists w, last ws = Some w /\ is_space w = true.
Proof.
  induction ws as [|w ws IH]; [done|]. intros _ Hf. simpl in Hf.
  apply andb_true_iff in Hf as [Hw Hf]. rewrite last_cons.
  destruct ws as [|w' ws]; [by exists w|].
  destruct (IH ltac:(done) Hf) as (x & -> & Hx). by exists x.
Qed.

Lemma spaces_head (ws rest : pystr) :
  ws <> [] -> forallb is_space ws = true ->
  opt_test is_space (head (ws ++ rest)) = true.
Proof.
  destruct ws as [|w ws]; [done|]. simpl. intros _ Hf.
  by apply andb_true_iff in Hf as [? _].
Qed.

Lemma Split_head prev s ps :
  Split prev s ps ->
  head (join space ps) = head s
  \/ (opt_test is_space (head (join space ps)) = true
      /\ opt_test is_space (head s) = true).
Proof.
  destruct 1 as [|prev ws C rest ps Hp Hws Hf HC Hs|prev c s' ps Hb Hs].
  - by left.
  - right. rewrite join_nil_cons by (by eapply Split_nonnil).
    split; [done | by apply spaces_head].
  - left. by rewrite join_cons_head.
Qed.

Lemma Split_drop_spaces prev s ps :
  Split prev s ps -> opt_test is_terminal prev = false ->
  head (drop_while is_space (join space ps)) = head (drop_while is_space s).
Proof.
  induction 1 as [|prev ws C rest ps Hp Hws Hf HC Hs IH|prev c s' ps Hb Hs IH];
    intros Hprev; [done | congruence |].
  rewrite join_cons_head. simpl.
  destruct (is_space c) eqn:Ec; [|done].
  apply IH. simpl. by apply space_not_terminal.
Qed.

Lemma scan_cut (prev : option N) (c : N) (s' : pystr) (k : nat) :
  sentence_break prev (c :: s') = Some (S k) ->
  scan prev 0 (c :: s') = [] :: scan (Some c) k s'.
Proof. intros E. simpl. by rewrite E. Qed.

Lemma scan_char (prev : option N) (c : N) (s' : pystr) :
  sentence_break prev (c :: s') = None ->
  scan prev 0 (c :: s') = cons_head c (scan (Some c) 0 s').
Proof. intros E. simpl. by rewrite E. Qed.

(** Scanning the single-space rejoin of the pieces gives the pieces back. *)
Lemma Split_rejoin prev s ps :
  Split prev s ps -> scan prev 0 (join space ps) = ps.
Proof.
  induction 1 as [|prev ws C rest ps Hp Hws Hf HC Hs IH|prev c s' ps Hb Hs IH].
  - done.
  - rewrite join_nil_cons by (by eapply Split_nonnil).
    assert (HJ : head (join space ps) = Some C).
    { destruct (Split_head _ _ _ Hs) as [E|[_ E]]; [done|].
      simpl in E. apply upper_or_quote_not_space in HC. congruence. }
    change (space ++ join space ps) with (32%N :: join space ps).
    rewrite (scan_cut _ _ _ 0).
    + f_equal. rewrite <- IH at 2. apply scan_prev. simpl.
      destruct (spaces_last ws Hws Hf) as (w & -> & Hw). simpl.
      symmetry. by apply space_not_terminal.
    + rewrite sentence_break_eq, Hp. simpl.
      destruct (join space ps) as [|j js]; [done|].
      injection HJ as ->. simpl.
      rewrite (upper_or_quote_not_space _ HC). simpl. by rewrite HC.
  - rewrite join_cons_head, scan_char; [by rewrite IH|].
    rewrite sentence_break_eq in Hb |- *. simpl in *.
    destruct (is_space c) eqn:Ec; simpl in *; [|by rewrite andb_false_r].
    rewrite (Split_drop_spaces _ _ _ Hs)
      by (simpl; by apply space_not_terminal).
    by destruct (opt_test is_terminal prev && true
                 && opt_test is_upper_or_quote (head (drop_while is_space s'))).
Qed.

Lemma Split_edges prev s ps :
  Split prev s ps ->
  s = [] \/ opt_test not_space (last s) = true ->
  exists p0 rest,
    ps = p0 :: rest
    /\ Forall (fun p => edge_ok p = true) rest
    /\ (p0 = [] -> s = [] \/ opt_test is_terminal prev = true)
    /\ (p0 <> [] -> opt_test not_space (last p0) = true /\ head p0 = head s).
Proof.
  induction 1 as [|prev ws C rest ps Hp Hws Hf HC Hs IH|prev c s' ps Hb Hs IH];
    intros Hlast.
  - exists [], []. repeat split; auto; done.
  - destruct IH as (p1 & rest' & -> & Hrest & Hnil & Hne).
    { right. destruct Hlast as [E|E]; [by destruct ws|].
      by rewrite last_app_cons in E. }
    exists [], (p1 :: rest'). repeat split; auto; try done.
    constructor; [|done].
    assert (Hp1 : p1 <> []).
    { intros E. destruct (Hnil E) as [?|Ht]; [done|].
      destruct (spaces_last ws Hws Hf) as (w & Hw & Hsp).
      rewrite Hw in Ht. simpl in Ht.
      apply space_not_terminal in Hsp. congruence. }
    destruct (Hne Hp1) as [Hl Hh]. unfold edge_ok. rewrite Hl, Hh. simpl.
    unfold not_space. by rewrite (upper_or_quote_not_space _ HC).
  - destruct IH as (q & rest' & -> & Hrest & Hnil & Hne).
    { destruct s' as [|d s'']; [by left|]. right.
      destruct Hlast as [E|E]; [done|]. by rewrite last_cons_cons in E. }
    exists (c :: q), rest'. repeat split; auto; try done.
    destruct q as [|d q'].
    + simpl. destruct (Hnil eq_refl) as [->|Ht].
      * by destruct Hlast.
      * simpl in Ht. unfold not_space. by rewrite terminal_not_space.
    + rewrite last_cons_cons. by apply Hne.
Qed.

Lemma lstrip_id (p : pystr) :
  opt_test not_space (head p) = true -> lstrip p = p.
Proof.
  destruct p as [|c p]; [done|]. unfold not_space. simpl.
  by destruct (is_space c).
Qed.

Lemma rstrip_id (p : pystr) :
  opt_test not_space (last p) = true -> rstrip p = p.
Proof.
  induction p as [|c p IH]; [done|].
  destruct p as [|d p'].
  - unfold not_space. simpl. by destruct (is_space c).
  - rewrite last_cons_cons. intros Hl.
    change (rstrip (c :: d :: p')) with
      (match rstrip (d :: p') with
       | [] => if is_space c then [] else [c]
       | r => c :: r
       end).
    by rewrite (IH Hl).
Qed.

Lemma edge_ok_strip (p : pystr) :
  edge_ok p = true -> strip p = p /\ nonempty (strip p) = true.
Proof.
  unfold edge_ok. intros Hp. apply andb_true_iff in Hp as [Hh Hl].
  unfold strip. rewrite (lstrip_id _ Hh), (rstrip_id _ Hl).
  split; [done|]. by destruct p.
Qed.

Lemma lstrip_head (t : pystr) :
  opt_test is_space (head (lstrip t)) = false.
Proof.
  induction t as [|c t IH]; [done|]. simpl.
  destruct (is_space c) eqn:E; [exact IH | exact E].
Qed.

Lemma rstrip_last (r : pystr) :
  rstrip r = [] \/ opt_test not_space (last (rstrip r)) = true.
Proof.
  induction r as [|c r IH]; [by left|]. simpl.
  destruct (rstrip r) as [|y x] eqn:E.
  - unfold not_space. destruct (is_space c) eqn:Ec; [by left|].
    right. simpl. by rewrite Ec.
  - right. rewrite last_cons_cons. by destruct IH.
Qed.

Lemma rstrip_head (r : pystr) :
  rstrip r <> [] -> head (rstrip r) = head r.
Proof.
  destruct r as [|c r]; [done|]. simpl.
  destruct (rstrip r); [|done]. by destruct (is_space c).
Qed.

Lemma strip_edges (t : pystr) : strip t = [] \/ edge_ok (strip t) = true.
Proof.
  unfold strip.
  destruct (rstrip_last (lstrip t)) as [E|E]; [by left|].
  destruct (rstrip (lstrip t)) as [|c r] eqn:Er; [by left|]. right.
  unfold edge_ok. rewrite E, andb_true_r.
  rewrite <- Er, rstrip_head by (by rewrite Er).
  pose proof (lstrip_head t) as Hh. unfold not_space.
  destruct (lstrip t) as [|d l]; [done|]. simpl in *. by rewrite Hh.
Qed.

Lemma edge_ok_join (ps : list pystr) :
  ps <> [] -> Forall (fun p => edge_ok p = true) ps ->
  edge_ok (join space ps) = true.
Proof.
  induction ps as [|p ps IH]; [done|]. intros _ Hall.
  apply Forall_cons in Hall as [Hp Hps].
  destruct ps as [|q ps']; [done|].
  specialize (IH ltac:(done) Hps).
  change (join space (p :: q :: ps')) with (p ++ space ++ join space (q :: ps')).
  unfold edge_ok in *.
  apply andb_true_iff in Hp as [Hh _]. apply andb_true_iff in IH as [_ Hl].
  apply andb_true_iff. split.
  - by destruct p.
  - destruct (join space (q :: ps')) as [|j js] eqn:EJ; [done|].
    replace (p ++ space ++ j :: js) with ((p ++ space) ++ j :: js)
      by (by rewrite <- app_assoc).
    by rewrite last_app_cons.
Qed.

Lemma keep_stripped (ps : list pystr) :
  Forall (fun p => edge_ok p = true) ps ->
  map strip (filter (fun p => nonempty (strip p) = true) ps) = ps.
Proof.
  induction 1 as [|p ps Hp _ IH]; [done|].
  destruct (edge_ok_strip p Hp) as [Hs Hn].
  rewrite filter_cons_True by done. simpl. by rewrite Hs, IH.
Qed.

(** On a text that is not blank the sentences are the pieces of the scan
    of the stripped text, as they stand. *)
Lemma split_into_sentences_scan (t : pystr) :
  strip t <> [] ->
  split_into_sentences t = scan None 0 (strip t)
  /\ Forall (fun p => edge_ok p = true) (scan None 0 (strip t)).
Proof.
  intros Hne.
  assert (Hall : Forall (fun p => edge_ok p = true) (scan None 0 (strip t))).
  { destruct (strip_edges t) as [E|E]; [done|].
    unfold edge_ok in E. apply andb_true_iff in E as [Hh Hl].
    destruct (Split_edges _ _ _ (scan_Split (strip t) None)) as
      (p0 & rest & Eps & Hrest & Hnil & Hp0); [by right|].
    rewrite Eps. constructor; [|done].
    assert (p0 <> []) as Hp.
    { intros E. by destruct (Hnil E). }
    destruct (Hp0 Hp) as [Hl0 Hh0]. unfold edge_ok. by rewrite Hh0, Hh, Hl0. }
  split; [|done]. unfold split_into_sentences, re_split.
  by apply keep_stripped.
Qed.

Lemma split_into_sentences_blank (t : pystr) :
  strip t = [] -> split_into_sentences t = [].
Proof. intros E. unfold split_into_sentences. by rewrite E. Qed.

Lemma resegment_same (t : pystr) :
  split_into_sentences (join space (split_into_sentences t))
  = split_into_sentences t.
Proof.
  destruct (decide (strip t = [])) as [E|E].
  - by rewrite (split_into_sentences_blank t E).
  - destruct (split_into_sentences_scan t E) as [-> Hall].
    pose proof (scan_Split (strip t) None) as HS.
    set (ps := scan None 0 (strip t)) in *.
    pose proof (edge_ok_join ps (Split_nonnil _ _ _ HS) Hall) as HJ.
    destruct (edge_ok_strip _ HJ) as [HsJ HnJ].
    unfold split_into_sentences, re_split. rewrite HsJ.
    rewrite (Split_rejoin _ _ _ HS). by apply keep_stripped.
Qed.

(** C8: segmenting the single-space rejoin of the sentences of a text
    gives as many sentences as segmenting the text. *)
Theorem resegmentation_stable (t : pystr) :
  length (split_into_sentences (join space (split_into_sentences t)))
  = length (split_into_sentences t).
Proof. by rewrite resegment_same. Qed.

(** ** Removing the markup of a rendered zone *)

Lemma strip_tags_app (b : bool) (a x : pystr) :
  strip_tags b (a ++ x) = strip_tags b a ++ strip_tags (in_tag_after b a) x.
Proof.
  revert b. induction a as [|c a IH]; intros b; [done|]. simpl.
  destruct b; [apply IH|].
  destruct (c =? 60)%N; simpl; by rewrite IH.
Qed.

Lemma in_tag_after_app (b : bool) (a x : pystr) :
  in_tag_after b (a ++ x) = in_tag_after (in_tag_after b a) x.
Proof.
  revert b. induction a as [|c a IH]; intros b; [done|]. simpl.
  destruct b; apply IH.
Qed.

(** Text without an opening bracket passes unchanged. *)
Lemma strip_tags_text (a : pystr) :
  Forall (fun c => c <> 60%N) a ->
  strip_tags false a = a /\ in_tag_after false a = false.
Proof.
  induction 1 as [|c a Hc _ [IH1 IH2]]; [done|]. simpl.
  apply N.eqb_neq in Hc. rewrite Hc. by rewrite IH1, IH2.
Qed.

(** Inside a tag, text without a closing bracket is dropped. *)
Lemma strip_tags_attr (a : pystr) :
  Forall (fun c => c <> 62%N) a ->
  strip_tags true a = [] /\ in_tag_after true a = true.
Proof.
  induction 1 as [|c a Hc _ [IH1 IH2]]; [done|]. simpl.
  apply N.eqb_neq in Hc. rewrite Hc. simpl. by rewrite IH1, IH2.
Qed.

Lemma escape_char_text (c : N) : Forall (fun x => x <> 60%N) (escape_char c).
Proof.
  unfold escape_char.
  repeat (case_match; [repeat constructor; discriminate|]).
  constructor; [|done]. by apply N.eqb_neq.
Qed.

Lemma html_escape_text (s : pystr) : Forall (fun x => x <> 60%N) (html_escape s).
Proof.
  unfold html_escape. induction s as [|c s IH]; simpl; [done|].
  apply Forall_app. split; [apply escape_char_text | exact IH].
Qed.

Lemma html_escape_app (a b : pystr) :
  html_escape (a ++ b) = html_escape a ++ html_escape b.
Proof. unfold html_escape. by rewrite map_app, concat_app. Qed.

Lemma unescape_scan_skip (a rest : pystr) :
  unescape_scan (length a) (a ++ rest) = unescape_scan 0 rest.
Proof. induction a as [|c a IH]; [done|]. exact IH. Qed.

Lemma starts_with_ne (a c : N) (p rest : pystr) :
  a <> c -> starts_with (a :: p) (c :: rest) = false.
Proof. intros Hac. simpl. apply N.eqb_neq in Hac. by rewrite Hac. Qed.

Lemma entity_at_other (c : N) (rest : pystr) :
  c <> 38%N -> entity_at entities (c :: rest) = None.
Proof.
  intros Hc. unfold entities.
  change (str "&amp;") with (38%N :: str "amp;").
  change (str "&lt;") with (38%N :: str "lt;").
  change (str "&gt;") with (38%N :: str "gt;").
  change (str "&quot;") with (38%N :: str "quot;").
  change (str "&#x27;") with (38%N :: str "#x27;").
  cbn [entity_at]. by rewrite !starts_with_ne by congruence.
Qed.

Lemma unescape_escape_char (c : N) (rest : pystr) :
  unescape_scan 0 (escape_char c ++ rest) = c :: unescape_scan 0 rest.
Proof.
  unfold escape_char.
  destruct (N.eqb_spec c 38) as [->|H38];
    [exact (f_equal _ (unescape_scan_skip (str "amp;") rest))|].
  destruct (N.eqb_spec c 60) as [->|H60];
    [exact (f_equal _ (unescape_scan_skip (str "lt;") rest))|].
  destruct (N.eqb_spec c 62) as [->|H62];
    [exact (f_equal _ (unescape_scan_skip (str "gt;") rest))|].
  destruct (N.eqb_spec c 34) as [->|H34];
    [exact (f_equal _ (unescape_scan_skip (str "quot;") rest))|].
  destruct (N.eqb_spec c 39) as [->|H39];
    [exact (f_equal _ (unescape_scan_skip (str "#x27;") rest))|].
  change ([c] ++ rest) with (c :: rest).
  cbn [unescape_scan]. by rewrite entity_at_other.
Qed.

(** Reading the character references back undoes [html.escape]. *)
Lemma unescape_escape (s : pystr) : unescape_scan 0 (html_escape s) = s.
Proof.
  unfold html_escape. induction s as [|c s IH]; [done|]. simpl.
  by rewrite unescape_escape_char, IH.
Qed.

Lemma concat_cons_head (c : N) (ps : list pystr) :
  concat (cons_head c ps) = c :: concat ps.
Proof. by destruct ps. Qed.

(** With the separators kept, the pieces of a split add up to the text. *)
Lemma re_split_keep_concat (pat : pattern) (s : pystr) (prev : option N)
    (k : nat) :
  concat (re_split_scan pat true prev k s) = drop k s.
Proof.
  revert prev k. induction s as [|c s IH]; intros prev k.
  - by destruct k.
  - destruct k as [|k]; simpl; [|apply IH].
    destruct (pat prev (c :: s)) as [[|n]|]; simpl.
    + by rewrite concat_cons_head, IH.
    + rewrite IH. f_equal. apply take_drop.
    + by rewrite concat_cons_head, IH.
Qed.

Lemma mapM_returned {A B} (f : A -> outcome B) (P : A -> B -> Prop)
    (l : list A) :
  (forall x, exists y, f x = Returned y /\ P x y) ->
  exists ys, mapM f l = Returned ys /\ Forall2 P l ys.
Proof.
  intros Hf. induction l as [|x l (ys & Hys & Hall)].
  - exists []. by split.
  - destruct (Hf x) as (y & Hy & Hxy). exists (y :: ys).
    split; [|by constructor]. simpl. rewrite Hy. simpl. by rewrite Hys.
Qed.

Lemma zone_frame_open_eq (bg label : pystr) :
  zone_frame_open bg label = frame_pre ++ bg ++ frame_mid ++ label ++ frame_post.
Proof.
  unfold zone_frame_open, frame_pre, frame_mid, frame_post.
  by rewrite <- !app_assoc.
Qed.

Lemma Forall_ne_forallb (x : N) (l : pystr) :
  forallb (fun c => negb (c =? x)%N) l = true -> Forall (fun c => c <> x) l.
Proof.
  induction l as [|c l IH]; simpl; [done|]. intros Hl.
  apply andb_true_iff in Hl as [Hc Hl].
  constructor; [|by apply IH]. apply N.eqb_neq. by apply negb_true_iff.
Qed.

Lemma zone_color_attr (zone_type : pystr) :
  Forall (fun c => c <> 62%N) (dict_get ZONE_COLORS zone_type (str "#ffffff")).
Proof.
  unfold ZONE_COLORS. cbn [dict_get].
  repeat case_bool_decide; apply Forall_ne_forallb; vm_compute; reflexivity.
Qed.

Lemma strip_frame (bg label body : pystr) :
  Forall (fun c => c <> 62%N) bg ->
  Forall (fun c => c <> 60%N) label ->
  in_tag_after false body = false ->
  strip_tags false (zone_frame_open bg label ++ body ++ str "</div>")
  = label ++ strip_tags false body.
Proof.
  intros Hbg Hlabel Hbody.
  destruct (strip_tags_attr bg Hbg) as [Hb1 Hb2].
  destruct (strip_tags_text label Hlabel) as [Hl1 Hl2].
  rewrite zone_frame_open_eq, <- !app_assoc.
  rewrite (strip_tags_app false frame_pre).
  change (strip_tags false frame_pre) with (@nil N).
  change (in_tag_after false frame_pre) with true.
  rewrite (strip_tags_app true bg), Hb1, Hb2.
  rewrite (strip_tags_app true frame_mid).
  change (strip_tags true frame_mid) with (@nil N).
  change (in_tag_after true frame_mid) with false.
  rewrite (strip_tags_app false label), Hl1, Hl2.
  rewrite (strip_tags_app false frame_post).
  change (strip_tags false frame_post) with (@nil N).
  change (in_tag_after false frame_post) with false.
  rewrite (strip_tags_app false body), Hbody.
  change (strip_tags false (str "</div>")) with (@nil N).
  by rewrite app_nil_r.
Qed.

Section Annotate.
Context `{Libraries}.

Lemma shows_escape (s : pystr) : shows s (html_escape s).
Proof. apply strip_tags_text, html_escape_text. Qed.

Lemma shows_wrapped (opening s out : pystr) :
  strip_tags false opening = [] -> in_tag_after false opening = false ->
  shows s out -> shows s (opening ++ out ++ span_close).
Proof.
  intros Ho1 Ho2 [Hs1 Hs2]. split.
  - rewrite !strip_tags_app, Ho1, Ho2, Hs1, Hs2. simpl. by rewrite app_nil_r.
  - rewrite !in_tag_after_app, Ho2, Hs2. done.
Qed.

Lemma shows_app (s1 s2 o1 o2 : pystr) :
  shows s1 o1 -> shows s2 o2 -> shows (s1 ++ s2) (o1 ++ o2).
Proof.
  intros [H1 H1'] [H2 H2']. split.
  - by rewrite strip_tags_app, H1, H1', H2, html_escape_app.
  - by rewrite in_tag_after_app, H1', H2'.
Qed.

Lemma shows_render_token (tok : pystr) : shows tok (render_token tok).
Proof.
  rewrite render_token_heavy. destruct (is_heavy tok).
  - apply shows_wrapped; [done | done | apply shows_escape].
  - apply shows_escape.
Qed.

Lemma shows_content (toks : list pystr) :
  shows (concat toks) (concat (map render_token toks)).
Proof.
  induction toks as [|tok toks IH]; [done|]. simpl.
  apply shows_app; [apply shows_render_token | exact IH].
Qed.

Lemma shows_render_sentence (target : Q) (sentence : pystr) :
  exists out,
    render_sentence target sentence = Returned out /\ shows sentence out.
Proof.
  destruct (render_sentence_returns target sentence) as (g & _ & Hr).
  eexists. split; [exact Hr|].
  assert (Hc : shows sentence (sentence_content sentence)).
  { unfold sentence_content.
    pose proof (shows_content (re_split ws_run true sentence)) as Hs.
    unfold re_split in Hs at 1. by rewrite re_split_keep_concat in Hs. }
  destruct (negb (Qle_bool g target)); [|done].
  by apply shows_wrapped.
Qed.

Lemma shows_join (ss rs : list pystr) :
  Forall2 shows ss rs -> shows (join space ss) (join space rs).
Proof.
  induction 1 as [|s r ss rs Hsr Hall IH]; [done|].
  destruct Hall as [|s' r' ss' rs' Hsr' Hall']; [done|].
  change (join space (s :: s' :: ss')) with (s ++ space ++ join space (s' :: ss')).
  change (join space (r :: r' :: rs')) with (r ++ space ++ join space (r' :: rs')).
  apply shows_app; [done|]. by apply (shows_app space _ space).
Qed.

Lemma zone_body_shows (zone_text : pystr) (target : Q) :
  exists body,
    zone_body zone_text target = Returned body
    /\ shows (join space (split_into_sentences zone_text)) body.
Proof.
  destruct (mapM_returned (render_sentence target) shows
              (split_into_sentences zone_text)
              (shows_render_sentence target)) as (rs & Hrs & Hall).
  exists (join space rs). split; [|by apply shows_join].
  unfold zone_body. by rewrite Hrs.
Qed.

End Annotate.

(** ** Words are kept by segmentation *)

Section Words.
Variable p : N -> bool.
Hypothesis p_space : forall c, is_space c = true -> p c = false.

Lemma opt_space (o : option N) : opt_test is_space o = true -> opt_test p o = false.
Proof using p_space. destruct o; simpl; [apply p_space | done]. Qed.

Lemma runs_spaces_app (ws rest : pystr) :
  forallb is_space ws = true -> runs p (ws ++ rest) = runs p rest.
Proof using p_space.
  induction ws as [|w ws IH]; [done|]. simpl. intros Hf.
  apply andb_true_iff in Hf as [Hw Hf]. by rewrite (p_space _ Hw), IH.
Qed.

Lemma runs_cons_same (c : N) (a b : pystr) :
  runs p a = runs p b -> opt_test p (head a) = opt_test p (head b) ->
  runs p (c :: a) = runs p (c :: b).
Proof. intros Hr Hh. simpl. by rewrite Hr, Hh. Qed.

Lemma runs_Split prev s ps :
  Split prev s ps -> runs p (join space ps) = runs p s.
Proof using p_space.
  induction 1 as [|prev ws C rest ps Hp Hws Hf HC Hs IH|prev c s' ps Hb Hs IH].
  - done.
  - rewrite join_nil_cons by (by eapply Split_nonnil).
    by rewrite (runs_spaces_app space), runs_spaces_app.
  - rewrite join_cons_head. apply runs_cons_same; [done|].
    destruct (Split_head _ _ _ Hs) as [->|[E1 E2]]; [done|].
    by rewrite !opt_space.
Qed.

Lemma runs_lstrip (t : pystr) : runs p (lstrip t) = runs p t.
Proof using p_space.
  induction t as [|c t IH]; [done|]. simpl.
  destruct (is_space c) eqn:E; [|done]. by rewrite IH, (p_space _ E).
Qed.

Lemma rstrip_nil (s : pystr) : rstrip s = [] -> forallb is_space s = true.
Proof.
  induction s as [|c s IH]; [done|]. simpl.
  destruct (rstrip s); [|done]. destruct (is_space c); [|done].
  intros _. by apply IH.
Qed.

Lemma runs_rstrip (s : pystr) : runs p (rstrip s) = runs p s.
Proof using p_space.
  induction s as [|c s IH]; [done|].
  change (rstrip (c :: s)) with
    (match rstrip s with
     | [] => if is_space c then [] else [c]
     | r => c :: r
     end).
  destruct (rstrip s) as [|y r] eqn:E.
  - pose proof (rstrip_nil s E) as Hs.
    assert (Hr : runs p s = []).
    { rewrite <- (app_nil_r s). by rewrite runs_spaces_app. }
    destruct (is_space c) eqn:Ec.
    + simpl. by rewrite (p_space _ Ec), Hr.
    + apply runs_cons_same; [by rewrite Hr|].
      destruct s as [|d s]; [done|]. simpl in *.
      apply andb_true_iff in Hs as [Hd _]. by rewrite (p_space _ Hd).
  - apply runs_cons_same; [done|].
    rewrite <- E, rstrip_head; [done | by rewrite E].
Qed.

Lemma runs_strip (t : pystr) : runs p (strip t) = runs p t.
Proof using p_space. unfold strip. by rewrite runs_rstrip, runs_lstrip. Qed.

(** The runs of a class without whitespace survive the rejoin. *)
Lemma runs_sentences (t : pystr) :
  runs p (join space (split_into_sentences t)) = runs p t.
Proof using p_space.
  destruct (decide (strip t = [])) as [E|E].
  - rewrite (split_into_sentences_blank t E), <- (runs_strip t), E. done.
  - destruct (split_into_sentences_scan t E) as [-> _].
    by rewrite (runs_Split _ _ _ (scan_Split (strip t) None)), (runs_strip t).
Qed.

End Words.

(** C5: a zone always renders; the body placed in the frame, with its
    markup removed, is the text of the zone with its sentences joined by
    single spaces; the whole output shows the zone label before it; and
    that text has the word tokens and the whitespace-separated runs of
    the zone text. *)
Theorem annotation_round_trip (L : Libraries) (zone_text zone_type : pystr)
    (target : Q) :
  exists body html,
    @zone_body L zone_text target = Returned body
    /\ @render_zone_html L zone_text zone_type target = Returned html
    /\ html = zone_frame_open (dict_get ZONE_COLORS zone_type (str "#ffffff"))
                (html_escape zone_type) ++ body ++ str "</div>"
    /\ strip_markup body = join space (split_into_sentences zone_text)
    /\ strip_markup html
       = zone_type ++ join space (split_into_sentences zone_text)
    /\ alpha_runs (strip_markup body) = alpha_runs zone_text
    /\ runs not_space (strip_markup body) = runs not_space zone_text.
Proof.
  destruct (@zone_body_shows L zone_text target) as (body & Hbody & Hs1 & Hs2).
  assert (Hb : strip_markup body = join space (split_into_sentences zone_text)).
  { unfold strip_markup. by rewrite Hs1, unescape_escape. }
  exists body. eexists. split; [done|].
  split; [unfold render_zone_html; rewrite Hbody; reflexivity|].
  split; [done|]. split; [done|]. split; [|split].
  - unfold strip_markup.
    rewrite strip_frame, Hs1, <- html_escape_app, unescape_escape;
      [done | apply zone_color_attr | apply html_escape_text | done].
  - rewrite Hb. apply runs_sentences. apply space_not_alpha.
  - rewrite Hb. apply runs_sentences. intros c Hc. unfold not_space. by rewrite Hc.
Qed.

(** ** The word count of the summary *)

#[local] Arguments is_alpha : simpl never.
#[local] Arguments is_word : simpl never.

Lemma runs_skip (p : N -> bool) (c : N) (s : pystr) :
  p c = false -> runs p (c :: s) = runs p s.
Proof. intros E. simpl. by rewrite E. Qed.

Lemma runs_run (p : N -> bool) (a rest : pystr) :
  a <> [] -> forallb p a = true -> opt_test p (head rest) = false ->
  runs p (a ++ rest) = a :: runs p rest.
Proof.
  intros Ha Hf Hrest. induction a as [|c a IH]; [done|].
  simpl in Hf. apply andb_true_iff in Hf as [Hc Hf].
  destruct a as [|d a'].
  - simpl. by rewrite Hc, Hrest.
  - specialize (IH ltac:(done) Hf).
    change ((c :: d :: a') ++ rest) with (c :: (d :: a') ++ rest).
    cbn [runs]. rewrite Hc, IH. simpl in Hf |- *.
    apply andb_true_iff in Hf as [Hd _]. by rewrite Hd.
Qed.

Lemma forallb_last (p : N -> bool) (a : pystr) :
  a <> [] -> forallb p a = true -> opt_test p (last a) = true.
Proof.
  induction a as [|c a IH]; [done|]. intros _ Hf. simpl in Hf.
  apply andb_true_iff in Hf as [Hc Hf].
  destruct a as [|d a']; [done|]. rewrite last_cons_cons. by apply IH.
Qed.

Lemma drop_while_id (p : N -> bool) (s : pystr) :
  opt_test p (head s) = false -> drop_while p s = s /\ take_while p s = [].
Proof. destruct s as [|c s]; [done|]. simpl. by intros ->. Qed.

Lemma re_findall_scan_skip (pat : pattern) (a rest : pystr) (prev : option N) :
  re_findall_scan pat prev (length a) (a ++ rest)
  = re_findall_scan pat (last_or prev a) 0 rest.
Proof.
  revert prev. induction a as [|c a IH]; intros prev; [done|].
  simpl. rewrite IH. f_equal.
  unfold last_or. rewrite last_cons. by destruct (last a).
Qed.

Section WordCount.
Context `{Libraries}.

Lemma alpha_is_word (c : N) : is_alpha c = true -> is_word c = true.
Proof.
  intros Hc. unfold is_word. rewrite Hc. simpl.
  destruct (N.ltb_spec c 128) as [|Hge]; [done|].
  exfalso. char_props. lia.
Qed.

Lemma greedy_plus_alpha (s : pystr) :
  greedy_plus is_alpha word_ok s
  = if nonempty (take_while is_alpha s)
       && negb (opt_test is_word (head (drop_while is_alpha s)))
    then Some (length (take_while is_alpha s)) else None.
Proof.
  induction s as [|c s IH]; simpl; [done|].
  destruct (is_alpha c) eqn:Ec; simpl; [|done].
  rewrite IH. unfold word_ok, word_boundary. simpl.
  rewrite (alpha_is_word c Ec). simpl.
  destruct (take_while is_alpha s) as [|w ws] eqn:Etw; simpl.
  - assert (drop_while is_alpha s = s) as ->.
    { rewrite <- (take_drop_while is_alpha s) at 2. by rewrite Etw. }
    by destruct (opt_test is_word (head s)).
  - destruct (negb (opt_test is_word (head (drop_while is_alpha s)))); [done|].
    assert (Hs : head s = Some w).
    { rewrite <- (take_drop_while is_alpha s), Etw. done. }
    rewrite Hs. simpl.
    pose proof (take_while_forallb is_alpha s) as Hf.
    rewrite Etw in Hf. simpl in Hf. apply andb_true_iff in Hf as [Hw _].
    by rewrite (alpha_is_word w Hw).
Qed.

Lemma word_pattern_eq (prev : option N) (s : pystr) :
  word_pattern prev s
  = if word_boundary prev (head s)
       && nonempty (take_while is_alpha s)
       && negb (opt_test is_word (head (drop_while is_alpha s)))
    then Some (length (take_while is_alpha s)) else None.
Proof.
  unfold word_pattern.
  change (fun last rest => word_boundary (Some last) (head rest)) with word_ok.
  rewrite greedy_plus_alpha. by destruct (word_boundary prev (head s)).
Qed.

Lemma take_while_word_alpha (s : pystr) :
  take_while is_word s
  = take_while is_alpha s ++ take_while is_word (drop_while is_alpha s).
Proof.
  induction s as [|c s IH]; [done|]. simpl.
  destruct (is_alpha c) eqn:Ec; simpl; [|done].
  by rewrite (alpha_is_word c Ec), IH.
Qed.

Lemma drop_while_word_alpha (s : pystr) :
  drop_while is_word s = drop_while is_word (drop_while is_alpha s).
Proof.
  induction s as [|c s IH]; [done|]. simpl.
  destruct (is_alpha c) eqn:Ec; simpl; [|done].
  by rewrite (alpha_is_word c Ec), IH.
Qed.

Lemma letter_words_skip (c : N) (s : pystr) :
  is_word c = false -> letter_words (c :: s) = letter_words s.
Proof. intros E. unfold letter_words. by rewrite runs_skip. Qed.

Lemma letter_words_run (c : N) (s : pystr) :
  is_word c = true ->
  letter_words (c :: s)
  = (if forallb is_alpha (take_while is_word (c :: s))
     then [take_while is_word (c :: s)] else [])
    ++ letter_words (drop_while is_word (c :: s)).
Proof.
  intros Hc. unfold letter_words.
  rewrite <- (take_drop_while is_word (c :: s)) at 1.
  rewrite runs_run.
  - simpl. rewrite Hc. simpl. by destruct (is_alpha c && _).
  - simpl. by rewrite Hc.
  - apply take_while_forallb.
  - apply drop_while_head.
Qed.

(** Scanning for the word pattern finds the letter-only runs of word
    characters; after a word character, those past the current run. *)
Lemma findall_letter_words (s : pystr) (prev : option N) :
  re_findall_scan word_pattern prev 0 s
  = letter_words (if opt_test is_word prev then drop_while is_word s else s).
Proof.
  remember (length s) as n eqn:Hn.
  revert s prev Hn. induction (lt_wf n) as [n _ IH]. intros s prev ->.
  destruct s as [|c s']; [by destruct (opt_test is_word prev)|].
  assert (IH' : forall prev',
    re_findall_scan word_pattern prev' 0 s'
    = letter_words (if opt_test is_word prev' then drop_while is_word s' else s')).
  { intros prev'. eapply IH; [|reflexivity]. simpl. lia. }
  cbn [re_findall_scan]. rewrite word_pattern_eq.
  unfold word_boundary. cbn [head opt_test].
  destruct (opt_test is_word prev) eqn:Ep; destruct (is_word c) eqn:Ec;
    cbn [xorb andb drop_while]; rewrite ?Ec.
  - rewrite IH'. simpl. by rewrite Ec.
  - destruct (is_alpha c) eqn:Ea; [by rewrite (alpha_is_word c Ea) in Ec|].
    simpl. rewrite Ea. simpl. rewrite IH'. simpl. rewrite Ec.
    by rewrite letter_words_skip.
  - destruct (is_alpha c) eqn:Ea.
    2:{ simpl. rewrite Ea. simpl. rewrite IH'. simpl. rewrite Ec.
        rewrite letter_words_run by done. simpl. rewrite Ec. simpl.
        by rewrite Ea. }
    set (A := take_while is_alpha (c :: s')).
    set (D := drop_while is_alpha s').
    assert (HD : drop_while is_alpha (c :: s') = D)
      by (unfold D; simpl; by rewrite Ea).
    assert (HAD : A ++ D = c :: s')
      by (rewrite <- HD; apply take_drop_while).
    assert (HA : A = c :: take_while is_alpha s')
      by (unfold A; simpl; by rewrite Ea).
    assert (HAf : forallb is_alpha A = true) by apply take_while_forallb.
    assert (HAw : forallb is_word A = true).
    { clear -HAf. induction A as [|a A IHA]; [done|]. simpl in *.
      apply andb_true_iff in HAf as [Ha HAf].
      by rewrite (alpha_is_word a Ha), IHA. }
    assert (HDa : opt_test is_alpha (head D) = false) by apply drop_while_head.
    rewrite letter_words_run by done.
    rewrite take_while_word_alpha, drop_while_word_alpha, HD. fold A.
    replace (nonempty A) with true by (by rewrite HA).
    destruct (opt_test is_word (head D)) eqn:EDw; cbn [negb andb].
    + rewrite IH'. simpl. rewrite Ec.
      rewrite forallb_app.
      assert (Hbad : forallb is_alpha (take_while is_word D) = false).
      { destruct D as [|d D']; [done|]. simpl in *. rewrite EDw. simpl.
        by rewrite HDa. }
      rewrite Hbad, andb_false_r. simpl.
      by rewrite (drop_while_word_alpha s').
    + destruct (drop_while_id is_word D EDw) as [HDd HDt].
      rewrite HDd, HDt, app_nil_r, HAf. simpl.
      assert (Hs' : s' = take_while is_alpha s' ++ D).
      { unfold D. symmetry. apply take_drop_while. }
      rewrite HA. cbn [length]. f_equal.
      * f_equal. rewrite Hs' at 2. by rewrite take_app_length.
      * rewrite Hs' at 2. rewrite re_findall_scan_skip.
        rewrite (IH (length D)); [| |reflexivity].
        -- rewrite <- last_cons_last_or, <- HA.
           rewrite (forallb_last is_word A);
             [by rewrite HDd | by rewrite HA | done].
        -- apply (f_equal length) in Hs'. rewrite length_app in Hs'.
           simpl. lia.
  - rewrite IH'. simpl. rewrite Ec. by rewrite letter_words_skip.
Qed.

(** C7 (amended): the summary row counts the runs of word characters
    (letters, digits, underscore, other alphanumerics) that consist of
    letters only. *)
Theorem summary_word_count (z : zone) (target : Q) :
  exists row,
    zone_summary_row z target = Returned row
    /\ row_words row = length (letter_words (text z)).
Proof.
  unfold zone_summary_row.
  destruct (fk_grade_returns (text z)) as (g & ->).
  eexists. split; [reflexivity|]. simpl.
  unfold re_findall. by rewrite findall_letter_words.
Qed.

End WordCount.

(** C7: in a zone that reads "Solve 3x + 2y" the summary counts one word,
    while the text has three maximal runs of alphabetic characters. *)
Lemma summary_words_not_alpha_runs :
  exists row,
    @zone_summary_row sample_libs algebra_zone 3 = Returned row
    /\ row_words row = 1
    /\ length (alpha_runs (text algebra_zone)) = 3.
Proof. eexists. split; [vm_compute; reflexivity|]. by split. Qed.

(** * Further properties of the helpers *)

(** ** Sentences *)

Lemma strip_idem (t : pystr) : strip (strip t) = strip t.
Proof.
  destruct (strip_edges t) as [E|E]; [by rewrite E|].
  by destruct (edge_ok_strip _ E).
Qed.

Lemma sentences_edge_ok (t : pystr) :
  Forall (fun p => edge_ok p = true) (split_into_sentences t).
Proof.
  destruct (decide (strip t = [])) as [E|E].
  - by rewrite (split_into_sentences_blank t E).
  - by destruct (split_into_sentences_scan t E) as [-> ?].
Qed.

(** X1: every sentence the segmenter returns is non-empty and carries no
    whitespace at either end. *)
Theorem sentences_trimmed (t s : pystr) :
  s ∈ split_into_sentences t -> s <> [] /\ strip s = s.
Proof.
  intros Hs.
  pose proof (proj1 (Forall_forall _ _) (sentences_edge_ok t) s Hs) as Hok.
  destruct (edge_ok_strip s Hok) as [E Hn]. split; [|done].
  intros ->. by rewrite E in Hn.
Qed.

Lemma sentences_trimmed_witness :
  str "The cat sat." <> [] /\ strip (str "The cat sat.") = str "The cat sat.".
Proof.
  apply (sentences_trimmed
           (str "Dr. Smith calculated the answer. The cat sat.")).
  vm_compute. do 2 apply list_elem_of_further. apply list_elem_of_here.
Defined.

(** X2: the segmenter returns no sentence exactly for the texts that are
    blank (empty once stripped). *)
Theorem no_sentence_iff_blank (t : pystr) :
  split_into_sentences t = [] <-> strip t = [].
Proof.
  split; [|apply split_into_sentences_blank].
  intros Hs. destruct (decide (strip t = [])) as [E|E]; [done|].
  destruct (split_into_sentences_scan t E) as [Hscan _].
  rewrite Hscan in Hs.
  by destruct (Split_nonnil _ _ _ (scan_Split (strip t) None)).
Qed.

Lemma Split_first prev s p0 rest :
  Split prev s (p0 :: rest) ->
  (p0 = [] -> s = [] \/ opt_test is_terminal prev = true)
  /\ (p0 <> [] -> head p0 = head s).
Proof.
  inversion 1 as [|? ws C r ps Hp Hws Hf HC Hs|? c s' ps Hb Hs]; subst.
  - by split; [left|].
  - by split; [right|].
  - assert (E : exists q, p0 = c :: q).
    { destruct ps as [|q ps']; simpl in *; simplify_eq; eauto. }
    destruct E as [q ->]. by split.
Qed.

Lemma breaks_ok_prev (p1 p2 : option N) (p : pystr) (rest : list pystr) :
  p <> [] -> breaks_ok p1 (p :: rest) -> breaks_ok p2 (p :: rest).
Proof.
  intros Hp. destruct rest as [|q rest]; [done|]. simpl.
  unfold last_or. destruct (last p) eqn:E; [done|].
  by apply last_None in E.
Qed.

Lemma Split_breaks prev s ps : Split prev s ps -> breaks_ok prev ps.
Proof.
  induction 1 as [|prev ws C r ps Hp Hws Hf HC Hs IH|prev c s' ps Hb Hs IH].
  - done.
  - destruct ps as [|p1 rest]; [done|].
    destruct (Split_first _ _ _ _ Hs) as [Hnil Hne].
    assert (Hp1 : p1 <> []).
    { intros E. destruct (Hnil E) as [?|Ht]; [done|].
      destruct (spaces_last ws Hws Hf) as (w & Hw & Hsp).
      rewrite Hw in Ht. simpl in Ht.
      apply space_not_terminal in Hsp. congruence. }
    simpl. split; [done|]. split; [by rewrite (Hne Hp1)|].
    by apply (breaks_ok_prev (last ws)).
  - destruct ps as [|q rest]; [done|]. destruct rest as [|q' rest]; [done|].
    simpl in *. destruct IH as (Hl & Hh & Hrest). split; [|done].
    unfold last_or in *. rewrite last_cons. by destruct (last q).
Qed.

Lemma breaks_ok_lookup (prev : option N) (ps : list pystr) (i : nat)
    (p q : pystr) :
  breaks_ok prev ps -> ps !! i = Some p -> ps !! S i = Some q ->
  opt_test is_terminal (last_or (if i is 0 then prev else None) p) = true
  /\ opt_test is_upper_or_quote (head q) = true.
Proof.
  revert prev i. induction ps as [|p0 ps IH]; intros prev i Hb Hp Hq; [done|].
  destruct ps as [|q0 ps']; [done|].
  destruct Hb as (Hl & Hh & Hrest).
  destruct i as [|i]; simpl in *.
  - by simplify_eq.
  - destruct (IH None i Hrest Hp Hq) as [H1 H2]. split; [|done].
    by destruct i.
Qed.

(** X3: where one sentence follows another, the first ends with a full
    stop, exclamation mark or question mark and the second begins with an
    upper-case letter or a quotation mark. *)
Theorem sentences_meet_at_breaks (t : pystr) (i : nat) (s s' : pystr) :
  split_into_sentences t !! i = Some s ->
  split_into_sentences t !! S i = Some s' ->
  opt_test is_terminal (last s) = true
  /\ opt_test is_upper_or_quote (head s') = true.
Proof.
  intros Hs Hs'.
  destruct (decide (strip t = [])) as [E|E].
  { by rewrite (split_into_sentences_blank t E) in Hs. }
  destruct (split_into_sentences_scan t E) as [Hscan Hall].
  rewrite Hscan in Hs, Hs'.
  pose proof (Split_breaks _ _ _ (scan_Split (strip t) None)) as Hb.
  destruct (breaks_ok_lookup _ _ _ _ _ Hb Hs Hs') as [H1 H2].
  split; [|done].
  assert (Hne : s <> []).
  { pose proof (proj1 (Forall_lookup _ _) Hall i s Hs) as Hok.
    intros ->. done. }
  unfold last_or in H1. destruct (last s) eqn:El; [done|].
  by apply last_None in El.
Qed.

Lemma sentences_meet_at_breaks_witness :
  opt_test is_terminal (last (str "Smith calculated the answer.")) = true
  /\ opt_test is_upper_or_quote (head (str "The cat sat.")) = true.
Proof.
  apply (sentences_meet_at_breaks
           (str "Dr. Smith calculated the answer. The cat sat.") 1);
    vm_compute; reflexivity.
Defined.

Lemma Split_first_spaces prev s q rest :
  Split prev s (q :: rest) -> opt_test is_terminal prev = false ->
  head (drop_while is_space q) = head (drop_while is_space s)
  \/ head (drop_while is_space q) = None.
Proof.
  remember (q :: rest) as ps eqn:Eps. intros HS. revert q rest Eps.
  induction HS as [|prev ws C r ps Hp Hws Hf HC Hs IH|prev c s' ps Hb Hs IH];
    intros q rest Eps Hprev.
  - simplify_eq. by right.
  - congruence.
  - destruct ps as [|q' rest'].
    { by destruct (Split_nonnil _ _ _ Hs). }
    simpl in Eps. injection Eps as <- <-.
    simpl. destruct (is_space c) eqn:Ec; [|by left].
    apply (IH q' rest' eq_refl). simpl. by apply space_not_terminal.
Qed.

Lemma Split_atomic prev s ps :
  Split prev s ps ->
  exists p0 rest,
    ps = p0 :: rest
    /\ scan prev 0 p0 = [p0]
    /\ Forall (fun p => scan None 0 p = [p]) rest.
Proof.
  induction 1 as [|prev ws C r ps Hp Hws Hf HC Hs IH|prev c s' ps Hb Hs IH].
  - by exists [], [].
  - destruct IH as (p1 & rest & -> & Hp1 & Hrest).
    exists [], (p1 :: rest). split; [done|]. split; [done|].
    constructor; [|done]. etrans; [|exact Hp1]. apply scan_prev.
    destruct (spaces_last ws Hws Hf) as (w & -> & Hw). simpl.
    symmetry. by apply space_not_terminal.
  - destruct IH as (q & rest & -> & Hq & Hrest).
    exists (c :: q), rest. split; [done|]. split; [|done].
    rewrite scan_char; [by rewrite Hq|].
    rewrite sentence_break_eq in Hb |- *. simpl in *.
    destruct (is_space c) eqn:Ec; simpl in *; [|by rewrite andb_false_r].
    destruct (opt_test is_terminal prev) eqn:Ep; [|done]. simpl in *.
    destruct (Split_first_spaces _ _ _ _ Hs) as [E|E];
      [simpl; by apply space_not_terminal | | ]; rewrite E; [|done].
    by destruct (opt_test is_upper_or_quote (head (drop_while is_space s'))).
Qed.

(** X4: a sentence the segmenter returned is not cut any further:
    segmenting it gives that sentence alone. *)
Theorem sentence_is_atomic (t s : pystr) :
  s ∈ split_into_sentences t -> split_into_sentences s = [s].
Proof.
  intros Hs.
  pose proof (proj1 (Forall_forall _ _) (sentences_edge_ok t) s Hs) as Hok.
  destruct (edge_ok_strip s Hok) as [Estrip _].
  assert (Hone : scan None 0 s = [s]).
  { destruct (decide (strip t = [])) as [E|E].
    { rewrite (split_into_sentences_blank t E) in Hs. by apply elem_of_nil in Hs. }
    destruct (split_into_sentences_scan t E) as [Hscan _].
    rewrite Hscan in Hs.
    destruct (Split_atomic _ _ _ (scan_Split (strip t) None))
      as (p0 & rest & Eps & Hp0 & Hrest).
    rewrite Eps in Hs. apply elem_of_cons in Hs as [->|Hin]; [done|].
    by apply (proj1 (Forall_forall _ _) Hrest). }
  unfold split_into_sentences, re_split. rewrite Estrip, Hone.
  apply keep_stripped. by constructor.
Qed.

Lemma sentence_is_atomic_witness :
  split_into_sentences (str "Smith calculated the answer.")
  = [str "Smith calculated the answer."].
Proof.
  apply (sentence_is_atomic
           (str "Dr. Smith calculated the answer. The cat sat.")).
  vm_compute. apply list_elem_of_further. apply list_elem_of_here.
Defined.

Lemma scan_no_terminal (s : pystr) (prev : option N) :
  opt_test is_terminal prev = false ->
  Forall (fun c => is_terminal c = false) s ->
  scan prev 0 s = [s].
Proof.
  intros Hprev Hs. revert prev Hprev.
  induction Hs as [|c s Hc _ IH]; intros prev Hprev; [done|].
  rewrite scan_char; [by rewrite IH|].
  unfold sentence_break. by rewrite Hprev.
Qed.

Lemma Forall_lstrip (P : N -> Prop) (t : pystr) :
  Forall P t -> Forall P (lstrip t).
Proof.
  induction 1 as [|c t Hc Ht IH]; [done|]. simpl.
  destruct (is_space c); [done | by constructor].
Qed.

Lemma Forall_rstrip (P : N -> Prop) (t : pystr) :
  Forall P t -> Forall P (rstrip t).
Proof.
  induction 1 as [|c t Hc Ht IH]; [done|]. simpl.
  destruct (rstrip t); [|by constructor].
  destruct (is_space c); [done | by constructor].
Qed.

(** X5: a text that is not blank and has no full stop, exclamation mark
    or question mark is one sentence, the stripped text. *)
Theorem no_terminal_one_sentence (t : pystr) :
  strip t <> [] ->
  Forall (fun c => is_terminal c = false) t ->
  split_into_sentences t = [strip t].
Proof.
  intros Hne Ht.
  destruct (split_into_sentences_scan t Hne) as [-> _].
  apply scan_no_terminal; [done|].
  by apply Forall_rstrip, Forall_lstrip.
Qed.

Lemma no_terminal_one_sentence_witness :
  split_into_sentences (str "  the cat sat  ") = [strip (str "  the cat sat  ")].
Proof.
  apply (no_terminal_one_sentence (str "  the cat sat  ")).
  - vm_compute. discriminate.
  - apply Forall_forall. intros c Hc.
    apply list_elem_of_In, (proj1 (forallb_forall _ _)
      (eq_refl : forallb (fun c => negb (is_terminal c))
                   (str "  the cat sat  ") = true)) in Hc.
    by apply negb_true_iff.
Defined.

(** ** Syllables and grades *)

Lemma is_alpha_lower_char (c : N) : is_alpha (lower_char c) = is_alpha c.
Proof.
  unfold lower_char. destruct (is_upper c) eqn:Eu; [|done].
  unfold is_alpha. rewrite Eu. simpl.
  apply orb_true_iff. right. char_props. lia.
Qed.

Lemma lower_char_idem (c : N) : lower_char (lower_char c) = lower_char c.
Proof.
  unfold lower_char at 1. destruct (is_upper (lower_char c)) eqn:Eu; [|done].
  exfalso. unfold lower_char in Eu.
  destruct (is_upper c) eqn:Ec; [|congruence]. char_props. lia.
Qed.

Lemma filter_alpha_lower (w : pystr) :
  List.filter is_alpha (lower w) = lower (List.filter is_alpha w).
Proof.
  unfold lower. induction w as [|c w IH]; [done|]. cbn [map List.filter].
  rewrite is_alpha_lower_char.
  destruct (is_alpha c); cbn [map]; by rewrite IH.
Qed.

Lemma lower_idem (w : pystr) : lower (lower w) = lower w.
Proof.
  unfold lower. induction w as [|c w IH]; [done|]. cbn [map].
  by rewrite lower_char_idem, IH.
Qed.

Lemma vowel_groups_from (s : pystr) (n : nat) (b : bool) :
  fst (foldl vowel_step (n, b) s) <= n + length (List.filter is_vowel s).
Proof.
  revert n b. induction s as [|c s IH]; intros n b; simpl; [lia|].
  destruct (is_vowel c); simpl.
  - destruct (negb b); simpl.
    + etrans; [apply IH|]. lia.
    + etrans; [apply IH|]. lia.
  - apply IH.
Qed.

Section MoreSyllables.
Context `{Libraries}.

(** X6: the estimate does not depend on the case of the letters. *)
Theorem count_syllables_lower (w : pystr) :
  count_syllables (lower w) = count_syllables w.
Proof.
  unfold count_syllables. by rewrite filter_alpha_lower, lower_idem.
Qed.

(** X7: when the dictionary has no count for a word, the estimate is at
    most the number of vowel letters of the word, or 1 if that is less. *)
Theorem fallback_at_most_vowels (w : pystr) :
  syllapy_count (lower (List.filter is_alpha w)) = 0 ->
  count_syllables w
  <= max 1 (length (List.filter is_vowel (lower (List.filter is_alpha w)))).
Proof.
  intros Hn. unfold count_syllables. rewrite Hn. simpl.
  set (clean := lower (List.filter is_alpha w)).
  destruct (nonempty clean); simpl; [|lia].
  pose proof (vowel_groups_from clean 0 false) as Hv.
  fold (vowel_groups clean) in Hv. simpl in Hv.
  destruct (endswith_e clean && (1 <? vowel_groups clean)); lia.
Qed.

(** X8: the grade is a whole number of tenths, zero or more. *)
Theorem fk_grade_tenths (t : pystr) :
  exists (k : Z) (g : Q),
    fk_grade t = Returned g /\ (0 <= k)%Z /\ (g == k # 10)%Q.
Proof.
  unfold fk_grade, try_except.
  destruct (flesch_kincaid_grade t) as [x|e]; simpl.
  - unfold py_max, py_round1.
    set (r := round_half_even (x * 10)).
    destruct (Qle_bool 0 (r # 10)) eqn:E.
    + exists r. eexists. split; [reflexivity|]. split; [|reflexivity].
      apply Qle_bool_iff in E. unfold Qle in E. simpl in E. lia.
    + exists 0%Z. eexists. split; [reflexivity|]. split; [lia | reflexivity].
  - exists 0%Z. eexists. split; [reflexivity|]. split; [lia | reflexivity].
Qed.

End MoreSyllables.

Lemma fallback_at_most_vowels_witness :
  @count_syllables sample_libs (str "queue")
  <= max 1 (length (List.filter is_vowel
                      (lower (List.filter is_alpha (str "queue"))))).
Proof.
  apply (@fallback_at_most_vowels sample_libs (str "queue")). reflexivity.
Defined.

(** ** Rendering *)

Lemma greedy_plus_all (s : pystr) :
  greedy_plus is_space (fun _ _ => true) s
  = if nonempty (take_while is_space s)
    then Some (length (take_while is_space s)) else None.
Proof.
  induction s as [|c s IH]; simpl; [done|].
  destruct (is_space c); simpl; [|done]. rewrite IH.
  by destruct (take_while is_space s).
Qed.

Lemma alternating_cons_head (c : N) (toks : list pystr) :
  is_space c = false -> alternating toks -> alternating (cons_head c toks).
Proof.
  intros Hc Ha.
  assert (Hp : forall p, forallb not_space p = true ->
                         forallb not_space (c :: p) = true).
  { intros p Hp. cbn [forallb]. unfold not_space at 1. by rewrite Hc. }
  destruct toks as [|p [|sep rest]]; [done| |].
  - by apply Hp.
  - destruct Ha as (Ha & Hrest). split; [by apply Hp | done].
Qed.

Lemma take_take_while (p : N -> bool) (s : pystr) :
  take (length (take_while p s)) s = take_while p s.
Proof.
  induction s as [|c s IH]; simpl; [done|].
  destruct (p c); simpl; [by rewrite IH | done].
Qed.

Lemma tokens_alternating (s : pystr) (prev : option N) (k : nat) :
  alternating (re_split_scan ws_run true prev k s).
Proof.
  revert prev k. induction s as [|c s IH]; intros prev k; [done|].
  destruct k as [|k]; simpl; [|apply IH].
  unfold ws_run at 1. rewrite greedy_plus_all. simpl.
  destruct (is_space c) eqn:Ec; simpl.
  - split; [done|]. split; [done|]. split; [|apply IH].
    rewrite Ec, take_take_while. apply take_while_forallb.
  - by apply alternating_cons_head.
Qed.

Lemma alternating_lookup (toks : list pystr) (i : nat) (tok : pystr) :
  alternating toks -> toks !! i = Some tok ->
  if Nat.even i then forallb not_space tok = true
  else tok <> [] /\ forallb is_space tok = true.
Proof.
  revert toks. induction (lt_wf i) as [i _ IH]. intros toks Ha Hi.
  destruct toks as [|p [|sep rest]]; [done| |].
  - destruct i as [|i]; [|done]. simpl in *. by simplify_eq.
  - destruct Ha as (Hp & Hne & Hsep & Hrest).
    destruct i as [|[|i]]; simpl in Hi.
    + by simplify_eq.
    + by simplify_eq.
    + change (Nat.even (S (S i))) with (Nat.even i).
      apply (IH i ltac:(lia) rest Hrest Hi).
Qed.

(** X9: the tokens of a sentence, put back together, are the sentence;
    those at even positions hold no whitespace and those at odd positions
    are non-empty runs of whitespace. *)
Theorem tokens_partition (sentence : pystr) :
  concat (re_split ws_run true sentence) = sentence
  /\ forall i tok,
       re_split ws_run true sentence !! i = Some tok ->
       if Nat.even i then forallb not_space tok = true
       else tok <> [] /\ forallb is_space tok = true.
Proof.
  split.
  - unfold re_split. by rewrite re_split_keep_concat.
  - intros i tok. apply alternating_lookup, tokens_alternating.
Qed.

Lemma dict_get_missing (d : list (pystr * pystr)) (key default : pystr) :
  key ∉ map fst d -> dict_get d key default = default.
Proof.
  induction d as [|[k v] d IH]; [done|]. simpl. intros Hk.
  apply not_elem_of_cons in Hk as [Hne Hk].
  rewrite bool_decide_eq_false_2 by done. by apply IH.
Qed.

Section MoreRendering.
Context `{Libraries}.

(** X10: rendering looks at the sentences only: the text with its
    sentences rejoined by single spaces renders exactly as the text. *)
Theorem render_respaced (zone_text zone_type : pystr) (target : Q) :
  render_zone_html (join space (split_into_sentences zone_text)) zone_type target
  = render_zone_html zone_text zone_type target.
Proof. unfold render_zone_html, zone_body. by rewrite resegment_same. Qed.

(** X11: a zone of one of the three types is framed in the colour of its
    type, and a zone of any other type still renders, framed in white. *)
Theorem render_frame_colour (zone_text zone_type : pystr) (target : Q) :
  exists body,
    zone_body zone_text target = Returned body
    /\ forall bg,
         (((zone_type ∉ map fst ZONE_COLORS) /\ bg = str "#ffffff")
          \/ ((zone_type, bg) ∈ ZONE_COLORS)) ->
         render_zone_html zone_text zone_type target
         = Returned (zone_frame_open bg (html_escape zone_type)
                     ++ body ++ str "</div>").
Proof.
  destruct (zone_body_shows zone_text target) as (body & Hbody & _).
  exists body. split; [done|]. intros bg Hbg.
  assert (Ebg : dict_get ZONE_COLORS zone_type (str "#ffffff") = bg).
  { destruct Hbg as [[Hk ->]|Hin]; [by apply dict_get_missing|].
    unfold ZONE_COLORS in Hin.
    repeat (apply elem_of_cons in Hin as [Hin|Hin];
            [apply pair_equal_spec in Hin as [-> ->]; vm_compute; reflexivity|]).
    by apply elem_of_nil in Hin. }
  unfold render_zone_html. rewrite Hbody, Ebg. reflexivity.
Qed.

End MoreRendering.

(** ** The summary row *)

Lemma py_int_whole (n : Z) : py_int (inject_Z n) = n.
Proof. unfold py_int. simpl. apply Z.quot_1_r. Qed.

Lemma status_strings_differ : status_on_target <> status_above_target.
Proof. discriminate. Qed.

Lemma runs_head_nonnil (p : N -> bool) (s : pystr) :
  opt_test p (head s) = true -> runs p s <> [].
Proof.
  destruct s as [|c s]; [done|]. simpl. intros ->.
  destruct (opt_test p (head s)); [by destruct (runs p s) | done].
Qed.

Lemma runs_app_boundary (p : N -> bool) (a b : pystr) :
  opt_test p (head b) = false -> runs p (a ++ b) = runs p a ++ runs p b.
Proof.
  intros Hb. induction a as [|c a IH]; [done|].
  change ((c :: a) ++ b) with (c :: a ++ b). cbn [runs]. rewrite IH.
  destruct (p c); [|done].
  destruct a as [|d a'].
  - simpl. by rewrite Hb.
  - cbn [app head opt_test]. destruct (p d) eqn:Ed; [|done].
    pose proof (runs_head_nonnil p (d :: a') Ed) as Hne.
    by destruct (runs p (d :: a')).
Qed.

Section MoreSummary.
Context `{Libraries}.

Lemma not_word_not_alpha (c : N) : is_word c = false -> is_alpha c = false.
Proof.
  intros Hc. destruct (is_alpha c) eqn:E; [|done].
  by rewrite (alpha_is_word c E) in Hc.
Qed.

Lemma letter_words_alpha_runs (s : pystr) :
  letter_words s `sublist_of` alpha_runs s
  /\ (Forall (fun c => is_word c = true -> is_alpha c = true) s ->
      letter_words s = alpha_runs s).
Proof.
  remember (length s) as n eqn:Hn.
  revert s Hn. induction (lt_wf n) as [n _ IH]. intros s ->.
  destruct s as [|c s']; [done|].
  destruct (is_word c) eqn:Ec.
  2:{ rewrite letter_words_skip by done. unfold alpha_runs.
      rewrite runs_skip by (by apply not_word_not_alpha).
      destruct (IH (length s') ltac:(simpl; lia) s' eq_refl) as [IH1 IH2].
      split; [done|]. intros Hall. apply IH2. by apply Forall_cons in Hall as [_ ?]. }
  rewrite letter_words_run by done.
  set (W := take_while is_word (c :: s')).
  set (R := drop_while is_word (c :: s')).
  assert (HWR : W ++ R = c :: s') by apply take_drop_while.
  assert (HW : W <> []) by (unfold W; simpl; by rewrite Ec).
  assert (HR : opt_test is_alpha (head R) = false).
  { pose proof (drop_while_head is_word (c :: s')) as Hh. fold R in Hh.
    destruct (head R) as [r|]; [|done]. simpl in *. by apply not_word_not_alpha. }
  assert (Hlen : length R < length (c :: s')).
  { rewrite <- HWR, length_app. destruct W; [done|]. simpl. lia. }
  destruct (IH (length R) Hlen R eq_refl) as [IH1 IH2].
  unfold alpha_runs in *. rewrite <- HWR, runs_app_boundary by done.
  destruct (forallb is_alpha W) eqn:EW.
  - assert (Hruns : runs is_alpha W = [W]).
    { rewrite <- (app_nil_r W) at 1. by rewrite runs_run. }
    rewrite Hruns. split.
    + by apply sublist_app.
    + intros Hall. f_equal. apply IH2.
      by apply Forall_app in Hall as [_ ?].
  - split.
    + by apply sublist_inserts_l.
    + intros Hall. exfalso.
      apply Forall_app in Hall as [HallW _].
      pose proof (take_while_forallb is_word (c :: s')) as HWw. fold W in HWw.
      assert (forallb is_alpha W = true); [|congruence].
      clear -HallW HWw. induction W as [|w W IHW]; [done|]. simpl in *.
      apply andb_true_iff in HWw as [Hw HWw].
      apply Forall_cons in HallW as [Hwa HallW].
      by rewrite (Hwa Hw), IHW.
Qed.

(** X12: the words a summary row counts are alphabetic runs of the zone
    text, in the order of the text, so the count never exceeds the number
    of alphabetic runs. *)
Theorem summary_words_bounded (z : zone) (target : Q) :
  exists row,
    zone_summary_row z target = Returned row
    /\ row_words row = length (re_findall word_pattern (text z))
    /\ re_findall word_pattern (text z) `sublist_of` alpha_runs (text z)
    /\ row_words row <= length (alpha_runs (text z)).
Proof.
  unfold zone_summary_row.
  destruct (fk_grade_returns (text z)) as (g & ->).
  eexists. split; [reflexivity|]. simpl. split; [done|].
  unfold re_findall. rewrite findall_letter_words. simpl.
  destruct (letter_words_alpha_runs (text z)) as [Hsub _].
  split; [done | by apply sublist_length].
Qed.

(** X13: when every word character of the zone text (letter, digit,
    underscore, other alphanumeric) is an ASCII letter, the summary row
    counts exactly the alphabetic runs. *)
Theorem summary_words_letters_only (z : zone) (target : Q) :
  Forall (fun c => is_word c = true -> is_alpha c = true) (text z) ->
  exists row,
    zone_summary_row z target = Returned row
    /\ row_words row = length (alpha_runs (text z)).
Proof.
  intros Hall. unfold zone_summary_row.
  destruct (fk_grade_returns (text z)) as (g & ->).
  eexists. split; [reflexivity|]. simpl.
  unfold re_findall. rewrite findall_letter_words. simpl.
  destruct (letter_words_alpha_runs (text z)) as [_ Heq].
  by rewrite Heq.
Qed.

(** X14: for a whole-number target the row repeats the zone label and
    the target, its grade is the zone's grade and is not negative, and
    its status is the on-target text exactly when the grade does not
    exceed the target, the above-target text otherwise. *)
Theorem summary_row_fields (z : zone) (n : Z) :
  exists row g,
    zone_summary_row z (inject_Z n) = Returned row
    /\ fk_grade (text z) = Returned g
    /\ row_zone_type row = label z
    /\ row_target_grade row = n
    /\ row_est_grade row = g /\ (0 <= g)%Q
    /\ (row_status row = status_on_target <-> (g <= inject_Z n)%Q)
    /\ (row_status row = status_above_target <-> (inject_Z n < g)%Q).
Proof.
  destruct (fk_grade_returns (text z)) as (g & Hg).
  assert (Hpos : (0 <= g)%Q).
  { revert Hg. unfold fk_grade, try_except.
    destruct (flesch_kincaid_grade (text z)); simpl; intros [= <-];
      [apply py_max_nonneg | apply Qle_refl]. }
  unfold zone_summary_row. rewrite Hg. eexists. exists g.
  split; [reflexivity|]. simpl.
  split; [done|]. split; [done|]. split; [apply py_int_whole|].
  split; [done|]. split; [done|].
  destruct (Qle_bool g (inject_Z n)) eqn:E.
  - apply Qle_bool_iff in E. split; [done|]. split.
    + intros Hs. by destruct status_strings_differ.
    + intros Hlt. exfalso. by apply (Qlt_not_le _ _ Hlt).
  - assert (Hlt : (inject_Z n < g)%Q).
    { apply Qnot_le_lt. intros Hle. apply Qle_bool_iff in Hle. congruence. }
    split; [|done]. split.
    + intros Hs. by destruct status_strings_differ.
    + intros Hle. exfalso. by apply (Qlt_not_le _ _ Hlt).
Qed.

End MoreSummary.

Lemma summary_words_letters_only_witness :
  exists row,
    @zone_summary_row sample_libs
      {| text := str "The cat sat."; label := str "Narration" |} 4
    = Returned row
    /\ row_words row = length (alpha_runs (str "The cat sat.")).
Proof.
  apply (@summary_words_letters_only sample_libs
           {| text := str "The cat sat."; label := str "Narration" |} 4).
  apply Forall_forall. intros c Hc.
  apply list_elem_of_In, (proj1 (forallb_forall _ _)
    (eq_refl : forallb (fun c => implb (@is_word sample_libs c) (is_alpha c))
                 (str "The cat sat.") = true)) in Hc.
  intros Hw. by rewrite Hw in Hc.
Defined.

(** ** The registry and the page *)

Lemma nonempty_true (s : pystr) : s <> [] -> nonempty s = true.
Proof. by destruct s. Qed.

(** X15: adding a zone and then deleting the last position gives the
    zones back as they were; only the key of the text box has moved on. *)
Theorem add_then_delete_last (zone_text_input zone_type_sel : pystr)
    (st : session_state) :
  strip zone_text_input <> [] ->
  delete_clicked (length (zones st))
    (fst (add_zone_clicked zone_text_input zone_type_sel st))
  = Returned ({| zones := zones st; pdf_text := pdf_text st;
                 last_fname := last_fname st;
                 zone_key := S (zone_key st) |}, Rerun).
Proof.
  intros Hne. unfold add_zone_clicked. rewrite (nonempty_true _ Hne).
  unfold delete_clicked, list_pop. cbn [fst zones].
  rewrite list_lookup_middle by done. simpl.
  by rewrite (delete_middle (zones st) []), app_nil_r.
Qed.

Lemma add_then_delete_last_witness :
  delete_clicked (length (zones sample_state))
    (fst (add_zone_clicked (str " Four. ") (str "Dialogue") sample_state))
  = Returned ({| zones := zones sample_state; pdf_text := pdf_text sample_state;
                 last_fname := last_fname sample_state;
                 zone_key := S (zone_key sample_state) |}, Rerun).
Proof.
  apply (add_then_delete_last (str " Four. ") (str "Dialogue") sample_state).
  vm_compute. discriminate.
Defined.

(** X16: the delete handler raises [IndexError] exactly for the
    positions at or past the end of the zone list. *)
Theorem delete_out_of_range (idx : nat) (st : session_state) :
  delete_clicked idx st = Raised IndexError <-> length (zones st) <= idx.
Proof.
  unfold delete_clicked, list_pop.
  destruct (zones st !! idx) as [z|] eqn:E; simpl.
  - apply lookup_lt_Some in E. split; [done | lia].
  - apply lookup_ge_None in E. done.
Qed.

Lemma zone_ok_stripped (t : pystr) (k : zone_kind) :
  strip t <> [] -> zone_ok {| text := strip t; label := kind_label k |}.
Proof.
  intros Hne. split; [done|]. split; [apply strip_idem | by exists k].
Qed.

Lemma reachable_zones_ok_aux (st : session_state) :
  reachable st -> Forall zone_ok (zones st).
Proof.
  induction 1 as [|st e st' _ IH Hrun]; [constructor|].
  destruct e as [t k| |idx|name pages]; simpl in Hrun.
  - apply Returned_inj in Hrun as <-. unfold add_zone_clicked.
    destruct (nonempty (strip t)) eqn:E; [|done]. simpl.
    apply Forall_app. split; [done|]. constructor; [|done].
    apply zone_ok_stripped. by destruct (strip t).
  - apply Returned_inj in Hrun as <-. constructor.
  - unfold delete_clicked, list_pop in Hrun.
    destruct (zones st !! idx); simpl in Hrun; [|done].
    apply Returned_inj in Hrun as <-. simpl. by apply Forall_delete.
  - apply Returned_inj in Hrun as <-. unfold file_uploaded.
    by case_bool_decide.
Qed.

(** X17: in every state the script can reach, each stored zone has a
    text that is not blank and carries no outer whitespace, and a label
    that is one of the three zone types. *)
Theorem reachable_zones_ok (st : session_state) :
  reachable st -> Forall zone_ok (zones st).
Proof. apply reachable_zones_ok_aux. Qed.

Lemma mapM_returned_Forall {A B} (f : A -> outcome B) (l : list A) :
  Forall (fun x => exists y, f x = Returned y) l ->
  exists ys, mapM f l = Returned ys /\ length ys = length l.
Proof.
  induction 1 as [|x l [y Hy] _ (ys & Hys & Hlen)].
  - by exists [].
  - exists (y :: ys). simpl. rewrite Hy. simpl. rewrite Hys. simpl.
    by rewrite Hlen.
Qed.

Lemma targets_index (s : sliders) (k : zone_kind) :
  exists target, dict_index (TARGETS s) (kind_label k) = Returned target.
Proof. destruct k; eexists; vm_compute; reflexivity. Qed.

(** X18: in every state the script can reach, the analysis of the zones
    goes through for any slider setting: each zone finds its target and
    yields one rendered block and one summary row. *)
Theorem reachable_page_renders (L : Libraries) (st : session_state)
    (s : sliders) :
  reachable st ->
  exists blocks rows,
    @analyzed_zones L s (zones st) = Returned blocks
    /\ @summary_rows L s (zones st) = Returned rows
    /\ length blocks = length (zones st)
    /\ length rows = length (zones st).
Proof.
  intros Hst. pose proof (reachable_zones_ok_aux st Hst) as Hok.
  destruct (mapM_returned_Forall
              (fun z => target ← dict_index (TARGETS s) (label z);
                        @render_zone_html L (text z) (label z) (inject_Z target))
              (zones st)) as (blocks & Hb & Hlb).
  { eapply Forall_impl; [exact Hok|]. intros z (_ & _ & k & Hk).
    rewrite Hk. destruct (targets_index s k) as [target ->]. simpl.
    destruct (@zone_body_shows L (text z) (inject_Z target)) as (body & Hbody & _).
    unfold render_zone_html. rewrite Hbody. eauto. }
  destruct (mapM_returned_Forall
              (fun z => target ← dict_index (TARGETS s) (label z);
                        @zone_summary_row L z (inject_Z target))
              (zones st)) as (rows & Hr & Hlr).
  { eapply Forall_impl; [exact Hok|]. intros z (_ & _ & k & Hk).
    rewrite Hk. destruct (targets_index s k) as [target ->]. simpl.
    unfold zone_summary_row.
    destruct (@fk_grade_returns L (text z)) as (g & ->). eauto. }
  by exists blocks, rows.
Qed.

(** X19: handling the same upload twice is handling it once, and an
    upload never touches the zones or the key of the text box. *)
Theorem upload_idempotent (name : pystr) (pdf_pages : list (option pystr))
    (st : session_state * option pystr) :
  file_uploaded name pdf_pages (file_uploaded name pdf_pages st)
  = file_uploaded name pdf_pages st
  /\ zones (fst (file_uploaded name pdf_pages st)) = zones (fst st)
  /\ zone_key (fst (file_uploaded name pdf_pages st)) = zone_key (fst st).
Proof.
  unfold file_uploaded.
  destruct (bool_decide (name <> last_fname (fst st))) eqn:E; simpl.
  - split; [|done]. by rewrite bool_decide_eq_false_2 by (by intros ?).
  - split; [|done]. by rewrite E.
Qed.

Lemma reachable_zones_ok_witness :
  Forall zone_ok
    (zones (fst (add_zone_clicked (str " One. ") (kind_label Dialogue)
                   initial_state))).
Proof.
  apply reachable_zones_ok.
  apply (reach_event initial_state (AddZone (str " One. ") Dialogue));
    [apply reach_initial | reflexivity].
Defined.

Lemma reachable_page_renders_witness :
  exists blocks rows,
    @analyzed_zones sample_libs sample_sliders
      (zones (fst (add_zone_clicked (str " One. ") (kind_label Dialogue)
                     initial_state))) = Returned blocks
    /\ @summary_rows sample_libs sample_sliders
         (zones (fst (add_zone_clicked (str " One. ") (kind_label Dialogue)
                        initial_state))) = Returned rows
    /\ length blocks
       = length (zones (fst (add_zone_clicked (str " One. ")
                               (kind_label Dialogue) initial_state)))
    /\ length rows
       = length (zones (fst (add_zone_clicked (str " One. ")
                               (kind_label Dialogue) initial_state))).
Proof.
  apply (reachable_page_renders sample_libs _ sample_sliders).
  apply (reach_event initial_state (AddZone (str " One. ") Dialogue));
    [apply reach_initial | reflexivity].
Defined.

(** ** Text extraction *)

Lemma edge_ok_join_sep (sep : pystr) (ps : list pystr) :
  ps <> [] -> Forall (fun p => edge_ok p = true) ps ->
  edge_ok (join sep ps) = true.
Proof.
  induction ps as [|p ps IH]; [done|]. intros _ Hall.
  apply Forall_cons in Hall as [Hp Hps].
  destruct ps as [|q ps']; [done|].
  specialize (IH ltac:(done) Hps).
  change (join sep (p :: q :: ps')) with (p ++ sep ++ join sep (q :: ps')).
  unfold edge_ok in *.
  apply andb_true_iff in Hp as [Hh _]. apply andb_true_iff in IH as [_ Hl].
  apply andb_true_iff. split.
  - by destruct p.
  - destruct (join sep (q :: ps')) as [|j js] eqn:EJ; [done|].
    replace (p ++ sep ++ j :: js) with ((p ++ sep) ++ j :: js)
      by (by rewrite <- app_assoc).
    by rewrite last_app_cons.
Qed.

Lemma page_texts_edge_ok (pdf_pages : list (option pystr)) :
  Forall (fun p => edge_ok p = true)
    (List.filter nonempty
       (map (fun page => strip (default [] page)) pdf_pages)).
Proof.
  induction pdf_pages as [|page pages IH]; [constructor|]. simpl.
  destruct (strip_edges (default [] page)) as [E|E].
  - by rewrite E.
  - destruct (strip (default [] page)) eqn:Es; [done|]. simpl.
    by constructor.
Qed.

(** X20: the extracted text carries no outer whitespace, and it is empty
    exactly when every page is blank or without text. *)
Theorem extract_pdf_text_trimmed (pdf_pages : list (option pystr)) :
  strip (extract_pdf_text pdf_pages) = extract_pdf_text pdf_pages
  /\ (extract_pdf_text pdf_pages = []
      <-> Forall (fun page => strip (default [] page) = []) pdf_pages).
Proof.
  unfold extract_pdf_text.
  pose proof (page_texts_edge_ok pdf_pages) as Hok.
  set (texts := List.filter nonempty _) in *.
  assert (Hnil : texts = []
                 <-> Forall (fun page => strip (default [] page) = []) pdf_pages).
  { unfold texts. clear. induction pdf_pages as [|page pages IH]; [done|].
    simpl. destruct (strip (default [] page)) eqn:E; simpl.
    - rewrite IH. split; [by constructor|]. by intros [_ ?]%Forall_cons.
    - split; [done|]. intros [Hp _]%Forall_cons. congruence. }
  destruct texts as [|p ps] eqn:Et.
  - split; [done|]. by rewrite <- Hnil.
  - pose proof (edge_ok_join_sep page_break (p :: ps) ltac:(done) Hok) as HJ.
    destruct (edge_ok_strip _ HJ) as [Hs Hn]. split; [done|].
    rewrite <- Hnil. split; [|done].
    intros E. rewrite E in Hn. by rewrite E in Hs.
Qed.

(** X21: a page that is blank or has no text leaves no trace: the
    extraction is the same with that page removed. *)
Theorem extract_pdf_text_skips_blank (before after : list (option pystr))
    (page : option pystr) :
  strip (default [] page) = [] ->
  extract_pdf_text (before ++ page :: after) = extract_pdf_text (before ++ after).
Proof.
  intros Hblank. unfold extract_pdf_text.
  rewrite !map_app, !List.filter_app. simpl. by rewrite Hblank.
Qed.

Lemma extract_pdf_text_skips_blank_witness :
  extract_pdf_text ([Some (str "Page one")] ++ Some (str "  ") :: [Some (str "Page three")])
  = extract_pdf_text ([Some (str "Page one")] ++ [Some (str "Page three")]).
Proof.
  apply (extract_pdf_text_skips_blank [Some (str "Page one")]
           [Some (str "Page three")] (Some (str "  "))).
  reflexivity.
Defined.

(** ** Styling of the summary table *)

Section Styles.
Context `{Libraries}.

(** X22: for a whole-number target the two stylers agree with the
    comparison of grade and target: on target, the status cell is green
    and no cell of the row is highlighted; above target, the status cell
    is orange and the grade cell alone is highlighted in orange. *)
Theorem summary_styles (z : zone) (n : Z) :
  exists row g,
    zone_summary_row z (inject_Z n) = Returned row
    /\ fk_grade (text z) = Returned g
    /\ ((g <= inject_Z n)%Q ->
        style_status (row_status row) = style_green
        /\ style_grade row = [ []; []; []; []; [] ])
    /\ ((inject_Z n < g)%Q ->
        style_status (row_status row) = style_orange
        /\ style_grade row = [ []; []; style_orange; []; [] ]).
Proof.
  destruct (fk_grade_returns (text z)) as (g & Hg).
  unfold zone_summary_row. rewrite Hg. eexists. exists g.
  split; [reflexivity|]. split; [done|].
  unfold style_grade. cbn [row_status row_est_grade row_target_grade].
  rewrite py_int_whole.
  destruct (Qle_bool g (inject_Z n)) eqn:E.
  - split; [done|]. intros Hlt. exfalso.
    apply Qle_bool_iff in E. by apply (Qlt_not_le _ _ Hlt).
  - split; [|done]. intros Hle. apply Qle_bool_iff in Hle. congruence.
Qed.

End Styles.

Lemma summary_styles_witness :
  exists row g,
    @zone_summary_row sample_libs_high algebra_zone (inject_Z 3) = Returned row
    /\ @fk_grade sample_libs_high (text algebra_zone) = Returned g
    /\ style_status (row_status row) = style_orange
    /\ style_grade row = [ []; []; style_orange; []; [] ].
Proof.
  destruct (@summary_styles sample_libs_high algebra_zone 3)
    as (row & g & Hrow & Hg & _ & Habove).
  exists row, g. split; [exact Hrow|]. split; [exact Hg|].
  apply Habove.
  assert (E : g = (94 # 10)%Q).
  { apply Returned_inj. rewrite <- Hg. reflexivity. }
  rewrite E. reflexivity.
Defined.
